(** * DeepFocus: the session timer, its persisted snapshot and the ambient
    sound graph of [src/App.jsx], as a shallow embedding.

    Conventions of the embedding.
    - A JavaScript number is a rational ([Q]) or [NaN]. Every number the
      program computes with is compared, clamped, decremented by one or
      multiplied by sixty; on the integers the application works with these
      operations are exact on doubles. [Infinity] (which [JSON.parse] yields
      for an overflowing literal) behaves under clamping like any rational
      above the upper bound and is not given a constructor.
    - A JavaScript value is a [JsVal]; objects are association lists in
      property order, read at the first binding of a key.
    - An exception is [None] in the [option] monad.
    - React state is a record; an event handler is a function on it, followed
      by the effects that run after the render it causes.
    - An audio node is an entry of a heap of nodes and is identified by its
      index; [audioRef.current] holds indices.

    Modules [JS], [Persist], [Timer], [Audio], [View], [Tasks] and
    [Lifecycle] hold the embedding; [JSFacts], [PersistFacts], [TimerFacts],
    [AudioFacts], [ViewFacts], [PersistMore], [TimerMore], [TasksFacts] and
    [AudioMore] the properties. *)

From Stdlib Require Import QArith Lqa Lia List String Ascii Bool.
From stdpp Require Import base list.
Import ListNotations.

#[local] Open Scope Q_scope.
#[local] Open Scope string_scope.
#[local] Open Scope list_scope.
Set Warnings "-register-all".

(** ** JavaScript values *)

Module JS.

Inductive number : Type :=
| NaN
| Num (q : Q).

Inductive JsVal : Type :=
| JUndefined
| JNull
| JBool (b : bool)
| JNum (n : number)
| JStr (s : string)
| JArr (items : list JsVal)
| JObj (fields : list (string * JsVal)).

(** [Math.max] and [Math.min] on two finite numbers. *)
Definition Math_max (a b : Q) : Q := if Qle_bool b a then a else b.
Definition Math_min (a b : Q) : Q := if Qle_bool a b then a else b.

(** First binding of [k] in an object's property list. *)
Fixpoint lookup_field (k : string) (fs : list (string * JsVal)) : option JsVal :=
  match fs with
  | [] => None
  | (k', v) :: rest => if String.eqb k k' then Some v else lookup_field k rest
  end.

(** Property read [v.k]. Reading a property of [null] or [undefined] throws
    a TypeError ([None]). On an object a missing property is [undefined]. On a
    number, boolean, string or array the property names the program reads
    (mode, focusMinutes, breakMinutes, secondsLeft, completedSessions, tasks,
    ambient, volume, id, title, done) are not defined by any prototype, so
    the read gives [undefined]. *)
Definition get (v : JsVal) (k : string) : option JsVal :=
  match v with
  | JUndefined | JNull => None
  | JObj fs => Some (match lookup_field k fs with Some x => x | None => JUndefined end)
  | _ => Some JUndefined
  end.

(** ToBoolean. *)
Definition truthy (v : JsVal) : bool :=
  match v with
  | JUndefined | JNull => false
  | JBool b => b
  | JNum NaN => false
  | JNum (Num q) => negb (Qeq_bool q 0)
  | JStr s => negb (String.eqb s EmptyString)
  | JArr _ | JObj _ => true
  end.

Definition typeof_is_string (v : JsVal) : bool :=
  match v with JStr _ => true | _ => false end.

(** Own enumerable properties copied by an object spread [{...v}] of an
    object. *)
Definition own_fields (v : JsVal) : list (string * JsVal) :=
  match v with JObj fs => fs | _ => [] end.

(** [{...fs, k: v}]: an existing key keeps its position and takes the new
    value, a new key is appended. *)
Fixpoint set_field (k : string) (v : JsVal) (fs : list (string * JsVal))
  : list (string * JsVal) :=
  match fs with
  | [] => [(k, v)]
  | (k', v') :: rest =>
      if String.eqb k k' then (k', v) :: rest else (k', v') :: set_field k v rest
  end.

(** [x || d] on numbers: [NaN] and zero are falsy. *)
Definition or_default (x : number) (d : Q) : Q :=
  match x with
  | NaN => d
  | Num q => if Qeq_bool q 0 then d else q
  end.

End JS.

Import JS.

(** ** The persisted snapshot: [clampNumber] and [getInitialState] *)

Module Persist.

Inductive Mode : Type := Focus | Break.

Definition mode_string (m : Mode) : string :=
  match m with Focus => "focus" | Break => "break" end.

Definition Mode_eqb (a b : Mode) : bool :=
  match a, b with Focus, Focus | Break, Break => true | _, _ => false end.

Record AmbientOption : Type := { value : string; label : string }.

Definition AMBIENT_OPTIONS : list AmbientOption :=
  [ {| value := "off"; label := "Səssiz" |};
    {| value := "white"; label := "White Noise" |};
    {| value := "rain"; label := "Yağış" |};
    {| value := "forest"; label := "Meşə tonu" |} ].

(** [clampNumber(value, min, max, fallback)]. *)
Definition clampNumber (v : JsVal) (min max fallback : Q) : Q :=
  match v with
  | JNum (Num q) => Math_min (Math_max q min) max
  | _ => fallback
  end.

(** The record [getInitialState] returns; the component keeps each field in
    a state variable of the same name. *)
Record Snapshot : Type := {
  focusMinutes : Q;
  breakMinutes : Q;
  mode : Mode;
  secondsLeft : Q;
  completedSessions : Q;
  tasks : list JsVal;
  ambient : string;
  volume : Q
}.

Definition defaults : Snapshot :=
  {| focusMinutes := 25;
     breakMinutes := 5;
     mode := Focus;
     secondsLeft := 25 * 60;
     completedSessions := 0;
     tasks := [];
     ambient := "off";
     volume := 40 |}.

(** What [window.localStorage.getItem(STORAGE_KEY)] followed by [JSON.parse]
    can give. The text layer of JSON is not modelled: the outcome of parsing
    is the input. *)
Inductive Stored : Type :=
| Missing                (* getItem returned null *)
| EmptyText              (* getItem returned the empty string *)
| Unparsable             (* JSON.parse threw *)
| Parsed (v : JsVal).    (* JSON.parse returned v *)

(** The filter callback
    [task && typeof task.id === 'string' && typeof task.title === 'string']. *)
Definition task_ok (task : JsVal) : option bool :=
  if truthy task then
    id ← get task "id";
    if typeof_is_string id then
      title ← get task "title";
      Some (typeof_is_string title)
    else Some false
  else Some false.

(** The map callback [{ ...task, done: Boolean(task.done) }]. *)
Definition task_clean (task : JsVal) : option JsVal :=
  d ← get task "done";
  Some (JObj (set_field "done" (JBool (truthy d)) (own_fields task))).

Fixpoint filter_tasks (l : list JsVal) : option (list JsVal) :=
  match l with
  | [] => Some []
  | t :: rest =>
      keep ← task_ok t;
      rest' ← filter_tasks rest;
      Some (if (keep : bool) then t :: rest' else rest')
  end.

Fixpoint map_tasks (l : list JsVal) : option (list JsVal) :=
  match l with
  | [] => Some []
  | t :: rest =>
      t' ← task_clean t;
      rest' ← map_tasks rest;
      Some (t' :: rest')
  end.

Definition ambientValues : list string := map value AMBIENT_OPTIONS.

(** [ambientValues.includes(x)]: SameValueZero against four strings. *)
Definition includes (vals : list string) (x : JsVal) : option string :=
  match x with
  | JStr s => if existsb (String.eqb s) vals then Some s else None
  | _ => None
  end.

(** [const safeMode = parsed.mode === 'break' ? 'break' : 'focus']. *)
Definition safeMode_of (pmode : JsVal) : Mode :=
  match pmode with
  | JStr s => if String.eqb s "break" then Break else Focus
  | _ => Focus
  end.

(** [const safeTasks = Array.isArray(parsed.tasks) ? ... : defaults.tasks]. *)
Definition safeTasks_of (ptasks : JsVal) : option (list JsVal) :=
  match ptasks with
  | JArr items => kept ← filter_tasks items; map_tasks kept
  | _ => Some (tasks defaults)
  end.

(** The body of the [try] block once [JSON.parse] has returned. *)
Definition sanitize (parsed : JsVal) : option Snapshot :=
  pmode ← get parsed "mode";
  let safeMode := safeMode_of pmode in
  pfocus ← get parsed "focusMinutes";
  let safeFocus := clampNumber pfocus 5 120 (focusMinutes defaults) in
  pbreak ← get parsed "breakMinutes";
  let safeBreak := clampNumber pbreak 1 45 (breakMinutes defaults) in
  let maxSeconds :=
    (match safeMode with Focus => safeFocus | Break => safeBreak end) * 60 in
  ptasks ← get parsed "tasks";
  safeTasks ← safeTasks_of ptasks;
  pseconds ← get parsed "secondsLeft";
  pcompleted ← get parsed "completedSessions";
  pambient ← get parsed "ambient";
  pvolume ← get parsed "volume";
  Some {| focusMinutes := safeFocus;
          breakMinutes := safeBreak;
          mode := safeMode;
          secondsLeft := clampNumber pseconds 0 maxSeconds maxSeconds;
          completedSessions := clampNumber pcompleted 0 100000 0;
          tasks := safeTasks;
          ambient :=
            match includes ambientValues pambient with
            | Some a => a
            | None => ambient defaults
            end;
          volume := clampNumber pvolume 0 100 (volume defaults) |}.

(** [getInitialState()]: [None] from [sanitize] is an exception caught by
    the [catch] block. *)
Definition getInitialState (st : Stored) : Snapshot :=
  match st with
  | Missing | EmptyText => defaults
  | Unparsable => defaults
  | Parsed v =>
      match sanitize v with
      | Some s => s
      | None => defaults
      end
  end.

(** The object the save effect passes to [JSON.stringify]. *)
Definition stateToStore (s : Snapshot) : JsVal :=
  JObj [ ("focusMinutes", JNum (Num (focusMinutes s)));
         ("breakMinutes", JNum (Num (breakMinutes s)));
         ("mode", JStr (mode_string (mode s)));
         ("secondsLeft", JNum (Num (secondsLeft s)));
         ("completedSessions", JNum (Num (completedSessions s)));
         ("tasks", JArr (tasks s));
         ("ambient", JStr (ambient s));
         ("volume", JNum (Num (volume s))) ].

(** What the next start of the application reads back after the save effect
    stored [s]: a non-empty text that parses to the stored object. *)
Definition saved (s : Snapshot) : Stored := Parsed (stateToStore s).

(** [durationSeconds(mode)] of the specification; the code's
    [cycleDuration]. *)
Definition durationSeconds (m : Mode) (focus brk : Q) : Q :=
  match m with Focus => focus * 60 | Break => brk * 60 end.

(** The property an object has at [k], [undefined] when it has none. *)
Definition field (fs : list (string * JsVal)) (k : string) : JsVal :=
  match lookup_field k fs with Some x => x | None => JUndefined end.

(** [typeof v === 'number' && !Number.isNaN(v)]. *)
Definition is_number (v : JsVal) : bool :=
  match v with JNum (Num _) => true | _ => false end.

(** A task as the snapshot schema has it: an object whose [id] and [title]
    are strings and whose [done] is a boolean. *)
Definition task_wellformed (t : JsVal) : bool :=
  match t with
  | JObj fs =>
      typeof_is_string (field fs "id") && typeof_is_string (field fs "title") &&
      match field fs "done" with JBool _ => true | _ => false end
  | _ => false
  end.

(** What passes the filter: an object with a string [id] and [title]. *)
Definition task_kept (t : JsVal) : Prop :=
  exists fs, t = JObj fs /\
    typeof_is_string (field fs "id") = true /\
    typeof_is_string (field fs "title") = true.

(** The range invariants of the data model on a snapshot: both durations and
    the volume in their ranges, the countdown within the current mode's
    duration, a non-negative session count, a known ambient profile and
    well-formed tasks. (The mode is one of the two by its type.) That the
    numbers are integers is not part of it: see [integer_fields]. *)
Record valid_state (s : Snapshot) : Prop := {
  focus_range : 5 <= focusMinutes s /\ focusMinutes s <= 120;
  break_range : 1 <= breakMinutes s /\ breakMinutes s <= 45;
  seconds_range :
    0 <= secondsLeft s /\
    secondsLeft s <= durationSeconds (mode s) (focusMinutes s) (breakMinutes s);
  completed_nonneg : 0 <= completedSessions s;
  volume_range : 0 <= volume s /\ volume s <= 100;
  ambient_known : In (ambient s) ambientValues;
  tasks_wellformed : Forall (fun t => task_wellformed t = true) (tasks s)
}.

(** [q] is an integer. *)
Definition integral (q : Q) : bool := (Qnum q mod Zpos (Qden q) =? 0)%Z.

(** The typing of the data model: every numeric field is an integer. *)
Record integer_fields (s : Snapshot) : Prop := {
  focus_integer : integral (focusMinutes s) = true;
  break_integer : integral (breakMinutes s) = true;
  seconds_integer : integral (secondsLeft s) = true;
  completed_integer : integral (completedSessions s) = true;
  volume_integer : integral (volume s) = true
}.

(** A state as the data model declares it: integer fields within their
    ranges. *)
Definition spec_valid_state (s : Snapshot) : Prop :=
  valid_state s /\ integer_fields s.

(** A stored value is an integer when it is a number. *)
Definition integral_if_number (v : JsVal) : bool :=
  match v with JNum (Num q) => integral q | _ => true end.

(** Every number among the five numeric properties of what was stored is an
    integer. *)
Definition integral_store (st : Stored) : bool :=
  match st with
  | Parsed (JObj fs) =>
      integral_if_number (field fs "focusMinutes") &&
      integral_if_number (field fs "breakMinutes") &&
      integral_if_number (field fs "secondsLeft") &&
      integral_if_number (field fs "completedSessions") &&
      integral_if_number (field fs "volume")
  | _ => true
  end.

End Persist.

(** ** The session timer: state variables, refs, handlers and the interval *)

Module Timer.

Import Persist.

Record Preset : Type := { plabel : string; focus : Q; rest : Q }.

Definition PRESETS : list Preset :=
  [ {| plabel := "Standart"; focus := 25; rest := 5 |};
    {| plabel := "Dərin İş"; focus := 50; rest := 10 |};
    {| plabel := "Sprint"; focus := 15; rest := 3 |} ].

(** The timer's state variables and the three refs the interval callback
    reads ([modeRef], [focusRef], [breakRef]). *)
Record AppState : Type := {
  focusMinutes : Q;
  breakMinutes : Q;
  mode : Mode;
  secondsLeft : Q;
  isRunning : bool;
  completedSessions : Q;
  modeRef : Mode;
  focusRef : Q;
  breakRef : Q
}.

(** [useState(initialState.x)], [useState(false)] and [useRef(x)] at the
    first render. *)
Definition init (i : Snapshot) : AppState :=
  {| focusMinutes := Persist.focusMinutes i;
     breakMinutes := Persist.breakMinutes i;
     mode := Persist.mode i;
     secondsLeft := Persist.secondsLeft i;
     isRunning := false;
     completedSessions := Persist.completedSessions i;
     modeRef := Persist.mode i;
     focusRef := Persist.focusMinutes i;
     breakRef := Persist.breakMinutes i |}.

(** The three effects [modeRef.current = mode], [focusRef.current =
    focusMinutes], [breakRef.current = breakMinutes], run after a render. *)
Definition sync_refs (s : AppState) : AppState :=
  {| focusMinutes := focusMinutes s;
     breakMinutes := breakMinutes s;
     mode := mode s;
     secondsLeft := secondsLeft s;
     isRunning := isRunning s;
     completedSessions := completedSessions s;
     modeRef := mode s;
     focusRef := focusMinutes s;
     breakRef := breakMinutes s |}.

(** [cycleDuration]. *)
Definition cycleDuration (s : AppState) : Q :=
  durationSeconds (mode s) (focusMinutes s) (breakMinutes s).

(** The callback of [window.setInterval]: the updater passed to
    [setSecondsLeft], with the [setCompletedSessions] and [setMode] calls and
    the write to [modeRef.current] it makes. *)
Definition intervalTick (s : AppState) : AppState :=
  let prev := secondsLeft s in
  if negb (Qle_bool prev 1) then
    {| focusMinutes := focusMinutes s;
       breakMinutes := breakMinutes s;
       mode := mode s;
       secondsLeft := prev - 1;
       isRunning := isRunning s;
       completedSessions := completedSessions s;
       modeRef := modeRef s;
       focusRef := focusRef s;
       breakRef := breakRef s |}
  else
    let nextMode := match modeRef s with Focus => Break | Break => Focus end in
    let nextDuration :=
      (match nextMode with Focus => focusRef s | Break => breakRef s end) * 60 in
    {| focusMinutes := focusMinutes s;
       breakMinutes := breakMinutes s;
       mode := nextMode;
       secondsLeft := nextDuration;
       isRunning := isRunning s;
       completedSessions :=
         match modeRef s with
         | Focus => completedSessions s + 1
         | Break => completedSessions s
         end;
       modeRef := nextMode;
       focusRef := focusRef s;
       breakRef := breakRef s |}.

(** The start/pause button: [setIsRunning((prev) => !prev)]. *)
Definition toggleRunning (s : AppState) : AppState :=
  {| focusMinutes := focusMinutes s;
     breakMinutes := breakMinutes s;
     mode := mode s;
     secondsLeft := secondsLeft s;
     isRunning := negb (isRunning s);
     completedSessions := completedSessions s;
     modeRef := modeRef s;
     focusRef := focusRef s;
     breakRef := breakRef s |}.

Definition handlePreset (focus rest : Q) (s : AppState) : AppState :=
  {| focusMinutes := focus;
     breakMinutes := rest;
     mode := Focus;
     secondsLeft := focus * 60;
     isRunning := false;
     completedSessions := completedSessions s;
     modeRef := modeRef s;
     focusRef := focusRef s;
     breakRef := breakRef s |}.

Definition handleToggleMode (nextMode : Mode) (s : AppState) : AppState :=
  {| focusMinutes := focusMinutes s;
     breakMinutes := breakMinutes s;
     mode := nextMode;
     secondsLeft :=
       (match nextMode with Focus => focusMinutes s | Break => breakMinutes s end) * 60;
     isRunning := false;
     completedSessions := completedSessions s;
     modeRef := modeRef s;
     focusRef := focusRef s;
     breakRef := breakRef s |}.

Definition handleResetTimer (s : AppState) : AppState :=
  {| focusMinutes := focusMinutes s;
     breakMinutes := breakMinutes s;
     mode := Focus;
     secondsLeft := focusMinutes s * 60;
     isRunning := false;
     completedSessions := completedSessions s;
     modeRef := modeRef s;
     focusRef := focusRef s;
     breakRef := breakRef s |}.

(** The timer's share of [handleResetAllData]. *)
Definition handleResetAllData (s : AppState) : AppState :=
  {| focusMinutes := 25;
     breakMinutes := 5;
     mode := Focus;
     secondsLeft := 25 * 60;
     isRunning := false;
     completedSessions := 0;
     modeRef := modeRef s;
     focusRef := focusRef s;
     breakRef := breakRef s |}.

(** [onChange] of the focus input; [v] is [Number(event.target.value)]. *)
Definition onChangeFocus (v : number) (s : AppState) : AppState :=
  let nextFocus := Math_min (Math_max (or_default v 5) 5) 120 in
  {| focusMinutes := nextFocus;
     breakMinutes := breakMinutes s;
     mode := mode s;
     secondsLeft :=
       if negb (isRunning s) && Mode_eqb (mode s) Focus
       then nextFocus * 60 else secondsLeft s;
     isRunning := isRunning s;
     completedSessions := completedSessions s;
     modeRef := modeRef s;
     focusRef := focusRef s;
     breakRef := breakRef s |}.

(** [onChange] of the break input. *)
Definition onChangeBreak (v : number) (s : AppState) : AppState :=
  let nextBreak := Math_min (Math_max (or_default v 1) 1) 45 in
  {| focusMinutes := focusMinutes s;
     breakMinutes := nextBreak;
     mode := mode s;
     secondsLeft :=
       if negb (isRunning s) && Mode_eqb (mode s) Break
       then nextBreak * 60 else secondsLeft s;
     isRunning := isRunning s;
     completedSessions := completedSessions s;
     modeRef := modeRef s;
     focusRef := focusRef s;
     breakRef := breakRef s |}.

(** The events the timer reacts to. [ToggleRunning] is start when idle and
    pause when running; [ApplyPreset i] is the click on the [i]-th preset
    button. *)
Inductive Command : Type :=
| ToggleRunning
| Tick
| SetMode (m : Mode)
| SetFocusDuration (v : number)
| SetBreakDuration (v : number)
| ApplyPreset (i : nat)
| Reset
| ResetAllData.

(** One event: the handler, then the render's effects. The interval exists
    only while [isRunning]. *)
Definition exec (c : Command) (s : AppState) : AppState :=
  match c with
  | ToggleRunning => sync_refs (toggleRunning s)
  | Tick => if isRunning s then sync_refs (intervalTick s) else s
  | SetMode m => sync_refs (handleToggleMode m s)
  | SetFocusDuration v => sync_refs (onChangeFocus v s)
  | SetBreakDuration v => sync_refs (onChangeBreak v s)
  | ApplyPreset i =>
      match nth_error PRESETS i with
      | Some p => sync_refs (handlePreset (focus p) (rest p) s)
      | None => s
      end
  | Reset => sync_refs (handleResetTimer s)
  | ResetAllData => sync_refs (handleResetAllData s)
  end.

Definition run (cs : list Command) (s : AppState) : AppState :=
  fold_left (fun acc c => exec c acc) cs s.

(** [n] firings of the interval. *)
Definition ticks (n : nat) (s : AppState) : AppState :=
  Nat.iter n (exec Tick) s.

(** The application right after it has started on a stored value. *)
Definition boot (st : Stored) : AppState := init (getInitialState st).

Definition refs_synced (s : AppState) : Prop :=
  modeRef s = mode s /\ focusRef s = focusMinutes s /\ breakRef s = breakMinutes s.

(** The countdown invariant of the data model. *)
Definition countdown_in_range (s : AppState) : Prop :=
  0 <= secondsLeft s /\ secondsLeft s <= cycleDuration s.

Definition durations_legal (s : AppState) : Prop :=
  5 <= focusMinutes s /\ focusMinutes s <= 120 /\
  1 <= breakMinutes s /\ breakMinutes s <= 45.

(** [s'] is in the phase [s] is in: same mode, count, running flag and
    durations, with the refs up to date. *)
Definition same_phase (s s' : AppState) : Prop :=
  mode s' = mode s /\
  completedSessions s' = completedSessions s /\
  isRunning s' = isRunning s /\
  focusMinutes s' = focusMinutes s /\
  breakMinutes s' = breakMinutes s /\
  refs_synced s'.

(** The longest countdown a mode can have: the upper bound of its duration
    range, in seconds. *)
Definition longestCycle (m : Mode) : Q :=
  match m with Focus => 120 * 60 | Break => 45 * 60 end.

(** [c] edits the duration of the phase that is counting down. *)
Definition edits_running_phase (c : Command) (s : AppState) : bool :=
  isRunning s &&
  match c with
  | SetFocusDuration _ => Mode_eqb (mode s) Focus
  | SetBreakDuration _ => Mode_eqb (mode s) Break
  | _ => false
  end.

(** No command of [cs], run from [s], edits the phase that is counting
    down. *)
Fixpoint edits_only_idle (cs : list Command) (s : AppState) : bool :=
  match cs with
  | [] => true
  | c :: r => negb (edits_running_phase c s) && edits_only_idle r (exec c s)
  end.

End Timer.

(** ** The ambient sound: [audioRef], the Web Audio nodes, and the effect *)

Module Audio.

Inductive Ambient : Type := Off | White | Rain | Forest.

Definition Ambient_eqb (a b : Ambient) : bool :=
  match a, b with
  | Off, Off | White, White | Rain, Rain | Forest, Forest => true
  | _, _ => false
  end.

(** The [value] of the option a profile stands for. *)
Definition ambient_string (a : Ambient) : string :=
  match a with
  | Off => "off" | White => "white" | Rain => "rain" | Forest => "forest"
  end.

(** Where a node's output goes: another node, or [ctx.destination]. *)
Inductive Target : Type :=
| ToNode (id : nat)
| Destination.

Inductive BiquadType : Type := lowpass | highpass | peaking.

Inductive NodeKind : Type :=
| BufferSourceNode (buffer : list Q) (loop started stopped : bool)
| GainNode (gain : Q)
| BiquadFilterNode (type : BiquadType) (frequency Qfactor gain : Q).

(** An audio node: what it is, and the connections made from it. *)
Record Node : Type := { kind : NodeKind; outputs : list Target }.

Inductive CtxState : Type := suspended | running.

(** What the browser decides: the device's sample rate, whether a new
    [AudioContext] starts suspended, and the value of the [i]-th call of
    [Math.random] made for a noise buffer. *)
Record Device : Type := {
  sampleRate : nat;
  startsSuspended : bool;
  random : nat -> Q
}.

(** The component's ambient state, [audioRef.current], every node created so
    far (a node's identity is its index in [heap]), the number of
    [Math.random] calls made, and the calls of [startAmbient] waiting at
    [await ctx.resume()] with the [ambient] and [volume] they closed over. *)
Record World : Type := {
  ambient : Ambient;
  volume : Q;
  ctx : option CtxState;
  source : option nat;
  nodes : list nat;
  heap : list Node;
  draws : nat;
  pending : list (Ambient * Q)
}.

(** Nodes as the Web Audio API creates them. *)
Definition newBufferSource : Node :=
  {| kind := BufferSourceNode [] false false false; outputs := [] |}.
Definition newGain : Node :=
  {| kind := GainNode 1; outputs := [] |}.
Definition newBiquadFilter : Node :=
  {| kind := BiquadFilterNode lowpass 350 1 0; outputs := [] |}.

Definition createNode (n : Node) (h : list Node) : nat * list Node :=
  (List.length h, h ++ [n]).

Definition with_kind (f : NodeKind -> NodeKind) (n : Node) : Node :=
  {| kind := f (kind n); outputs := outputs n |}.

Definition set_buffer (b : list Q) : NodeKind -> NodeKind := fun k =>
  match k with BufferSourceNode _ l s e => BufferSourceNode b l s e | _ => k end.
Definition set_loop (l : bool) : NodeKind -> NodeKind := fun k =>
  match k with BufferSourceNode b _ s e => BufferSourceNode b l s e | _ => k end.
Definition do_start : NodeKind -> NodeKind := fun k =>
  match k with BufferSourceNode b l _ e => BufferSourceNode b l true e | _ => k end.
Definition do_stop : NodeKind -> NodeKind := fun k =>
  match k with BufferSourceNode b l s _ => BufferSourceNode b l s true | _ => k end.
Definition set_gain (g : Q) : NodeKind -> NodeKind := fun k =>
  match k with
  | GainNode _ => GainNode g
  | BiquadFilterNode t f q _ => BiquadFilterNode t f q g
  | _ => k
  end.
Definition set_type (t : BiquadType) : NodeKind -> NodeKind := fun k =>
  match k with BiquadFilterNode _ f q g => BiquadFilterNode t f q g | _ => k end.
Definition set_frequency (f : Q) : NodeKind -> NodeKind := fun k =>
  match k with BiquadFilterNode t _ q g => BiquadFilterNode t f q g | _ => k end.
Definition set_Q (q : Q) : NodeKind -> NodeKind := fun k =>
  match k with BiquadFilterNode t f _ g => BiquadFilterNode t f q g | _ => k end.

(** [node.prop = x] on the node at [id]. *)
Definition assign (f : NodeKind -> NodeKind) (id : nat) (h : list Node) : list Node :=
  alter (with_kind f) id h.

(** [a.connect(t)]. *)
Definition connect (a : nat) (t : Target) (h : list Node) : list Node :=
  alter (fun n => {| kind := kind n; outputs := outputs n ++ [t] |}) a h.

(** [a.disconnect()]: every connection from [a] is removed. *)
Definition disconnect (a : nat) (h : list Node) : list Node :=
  alter (fun n => {| kind := kind n; outputs := [] |}) a h.

(** [stopAmbient]. *)
Definition stopAmbient (w : World) : World :=
  match source w with
  | None => w
  | Some src =>
      let h := assign do_stop src (heap w) in
      let h := fold_left (fun h node => disconnect node h) (nodes w) h in
      {| ambient := ambient w; volume := volume w; ctx := ctx w;
         source := None; nodes := []; heap := h;
         draws := draws w; pending := pending w |}
  end.

(** [startAmbient] from [const frameCount] to its end, on a world in which
    [stopAmbient] has just run; [a] and [v] are the [ambient] and [volume] the
    callback closed over. *)
Definition build_graph (dev : Device) (a : Ambient) (v : Q) (w : World) : World :=
  let frameCount := (sampleRate dev * 2)%nat in
  let channelData :=
    map (fun i => random dev i * 2 - 1) (seq (draws w) frameCount) in
  let '(source, h) := createNode newBufferSource (heap w) in
  let h := assign (set_buffer channelData) source h in
  let h := assign (set_loop true) source h in
  let '(gainNode, h) := createNode newGain h in
  let h := assign (set_gain (v / 100)) gainNode h in
  let '(nodes', h) :=
    match a with
    | White =>
        let h := connect source (ToNode gainNode) h in
        let h := connect gainNode Destination h in
        ([source; gainNode], h)
    | Rain =>
        let '(highPass, h) := createNode newBiquadFilter h in
        let h := assign (set_type highpass) highPass h in
        let h := assign (set_frequency 800) highPass h in
        let '(lowPass, h) := createNode newBiquadFilter h in
        let h := assign (set_type lowpass) lowPass h in
        let h := assign (set_frequency 7000) lowPass h in
        let h := connect source (ToNode highPass) h in
        let h := connect highPass (ToNode lowPass) h in
        let h := connect lowPass (ToNode gainNode) h in
        let h := connect gainNode Destination h in
        ([source; highPass; lowPass; gainNode], h)
    | Forest =>
        let '(lowPass, h) := createNode newBiquadFilter h in
        let h := assign (set_type lowpass) lowPass h in
        let h := assign (set_frequency 1200) lowPass h in
        let '(peak, h) := createNode newBiquadFilter h in
        let h := assign (set_type peaking) peak h in
        let h := assign (set_frequency 300) peak h in
        let h := assign (set_Q (9 # 10)) peak h in
        let h := assign (set_gain 2) peak h in
        let h := connect source (ToNode lowPass) h in
        let h := connect lowPass (ToNode peak) h in
        let h := connect peak (ToNode gainNode) h in
        let h := connect gainNode Destination h in
        ([source; lowPass; peak; gainNode], h)
    | Off => (nodes w, h)
    end in
  let h := assign do_start source h in
  {| ambient := ambient w; volume := volume w; ctx := ctx w;
     source := Some source; nodes := nodes'; heap := h;
     draws := (draws w + frameCount)%nat; pending := pending w |}.

(** [startAmbient] after the [await]: [stopAmbient()], then the build. *)
Definition startAmbient_resumed (dev : Device) (a : Ambient) (v : Q) (w : World) : World :=
  build_graph dev a v (stopAmbient w).

Definition set_ctx (c : option CtxState) (w : World) : World :=
  {| ambient := ambient w; volume := volume w; ctx := c;
     source := source w; nodes := nodes w; heap := heap w;
     draws := draws w; pending := pending w |}.

Definition set_pending (p : list (Ambient * Q)) (w : World) : World :=
  {| ambient := ambient w; volume := volume w; ctx := ctx w;
     source := source w; nodes := nodes w; heap := heap w;
     draws := draws w; pending := p |}.

Definition set_ambient (a : Ambient) (w : World) : World :=
  {| ambient := a; volume := volume w; ctx := ctx w;
     source := source w; nodes := nodes w; heap := heap w;
     draws := draws w; pending := pending w |}.

Definition set_volume (v : Q) (w : World) : World :=
  {| ambient := ambient w; volume := v; ctx := ctx w;
     source := source w; nodes := nodes w; heap := heap w;
     draws := draws w; pending := pending w |}.

(** [startAmbient] up to its first suspension point: when the context is
    suspended the call parks at [await ctx.resume()], otherwise it runs to
    its end. *)
Definition startAmbient (dev : Device) (a : Ambient) (v : Q) (w : World) : World :=
  match a with
  | Off => stopAmbient w
  | _ =>
      let c :=
        match ctx w with
        | Some c => c
        | None => if startsSuspended dev then suspended else running
        end in
      let w := set_ctx (Some c) w in
      match c with
      | suspended => set_pending (pending w ++ [(a, v)]) w
      | running => startAmbient_resumed dev a v w
      end
  end.

(** The body of the ambient effect, for the render that [w] describes. *)
Definition ambientEffect (dev : Device) (w : World) : World :=
  match ambient w with
  | Off => stopAmbient w
  | a => startAmbient dev a (volume w) w
  end.

(** The cleanup the ambient effect returned at a render whose profile was
    [a]: none for [Off], [stopAmbient] otherwise. *)
Definition ambientCleanup (a : Ambient) (w : World) : World :=
  match a with
  | Off => w
  | _ => stopAmbient w
  end.

(** [setAmbient(a)]: setting a state variable to the value it has causes no
    render; otherwise the effect's dependencies changed, so the old cleanup
    runs and then the effect. *)
Definition setAmbient (dev : Device) (a : Ambient) (w : World) : World :=
  if Ambient_eqb a (ambient w) then w
  else ambientEffect dev (set_ambient a (ambientCleanup (ambient w) w)).

(** [setVolume(v)]: [volume] is a dependency of [startAmbient], which is a
    dependency of the effect. *)
Definition setVolume (dev : Device) (v : Q) (w : World) : World :=
  if Qeq_bool v (volume w) then w
  else ambientEffect dev (set_volume v (ambientCleanup (ambient w) w)).

(** The first render and its effect. *)
Definition mount (dev : Device) (a : Ambient) (v : Q) : World :=
  ambientEffect dev
    {| ambient := a; volume := v; ctx := None; source := None; nodes := [];
       heap := []; draws := 0; pending := [] |}.

(** What can happen to the component: the two setters, a render caused by
    any other state change (the effect's dependencies are unchanged, nothing
    runs), and the settling of the oldest pending [ctx.resume()]. *)
Inductive Event : Type :=
| SetAmbient (a : Ambient)
| SetVolume (v : Q)
| Rerender
| ResumeResolved
| ResumeRejected.

Definition react (dev : Device) (e : Event) (w : World) : World :=
  match e with
  | SetAmbient a => setAmbient dev a w
  | SetVolume v => setVolume dev v w
  | Rerender => w
  | ResumeResolved =>
      match pending w with
      | (a, v) :: rest =>
          startAmbient_resumed dev a v (set_pending rest (set_ctx (Some running) w))
      | [] => w
      end
  | ResumeRejected =>
      match pending w with
      | _ :: rest => set_pending rest w
      | [] => w
      end
  end.

Definition play (dev : Device) (es : list Event) (w : World) : World :=
  fold_left (fun acc e => react dev e acc) es w.

(** Observations of the world. *)
Definition feeds_output (n : Node) : bool :=
  existsb (fun t => match t with Destination => true | ToNode _ => false end)
          (outputs n).

Definition is_playing (n : Node) : bool :=
  match kind n with
  | BufferSourceNode _ _ true false => true
  | _ => false
  end.

(** Identities of the nodes that satisfy [p]. *)
Definition ids_where (p : Node -> bool) (h : list Node) : list nat :=
  List.filter (fun i => match h !! i with Some n => p n | None => false end)
              (seq 0 (List.length h)).

(** A stage of a signal chain, as the filter-chain policy names them. *)
Inductive Stage : Type :=
| NoiseSource (buffer : list Q) (loop : bool)
| HighPass (cutoff : Q)
| LowPass (cutoff : Q)
| PeakingBand (center Qfactor gain : Q)
| GainStage (gain : Q).

Definition stage_of (n : Node) : Stage :=
  match kind n with
  | BufferSourceNode b l _ _ => NoiseSource b l
  | GainNode g => GainStage g
  | BiquadFilterNode highpass f _ _ => HighPass f
  | BiquadFilterNode lowpass f _ _ => LowPass f
  | BiquadFilterNode peaking f q g => PeakingBand f q g
  end.

(** The stages met from node [id] to the output device, following the one
    connection each node has; [None] when a node has no or several
    connections, or the walk is longer than [fuel]. *)
Fixpoint walk (fuel : nat) (h : list Node) (id : nat) : option (list Stage) :=
  match fuel with
  | O => None
  | S fuel =>
      match h !! id with
      | None => None
      | Some n =>
          match outputs n with
          | [Destination] => Some [stage_of n]
          | [ToNode j] =>
              match walk fuel h j with
              | Some rest => Some (stage_of n :: rest)
              | None => None
              end
          | _ => None
          end
      end
  end.

(** The chain that plays: from [audioRef.current.source] to the output. *)
Definition signal_chain (w : World) : option (list Stage) :=
  match source w with
  | Some src => walk (List.length (heap w)) (heap w) src
  | None => None
  end.

(** The filter stages of the policy table, between source and gain. *)
Definition policy_filters (a : Ambient) : list Stage :=
  match a with
  | Off | White => []
  | Rain => [HighPass 800; LowPass 7000]
  | Forest => [LowPass 1200; PeakingBand 300 (9 # 10) 2]
  end.

(** The samples a build draws: [frameCount] calls of [Math.random], each
    mapped to [r * 2 - 1], starting at the [from]-th call. *)
Definition noise (dev : Device) (from : nat) : list Q :=
  map (fun i => random dev i * 2 - 1) (seq from (sampleRate dev * 2)).

(** Closed form of what [build_graph] allocates on a heap of [L] nodes. *)
Definition built_nodes (a : Ambient) (v : Q) (L : nat) (buf : list Q) : list Node :=
  let src t := {| kind := BufferSourceNode buf true true false; outputs := t |} in
  let gain t := {| kind := GainNode (v / 100); outputs := t |} in
  match a with
  | White => [src [ToNode (L + 1)]; gain [Destination]]
  | Rain =>
      [src [ToNode (L + 2)]; gain [Destination];
       {| kind := BiquadFilterNode highpass 800 1 0; outputs := [ToNode (L + 3)] |};
       {| kind := BiquadFilterNode lowpass 7000 1 0; outputs := [ToNode (L + 1)] |}]
  | Forest =>
      [src [ToNode (L + 2)]; gain [Destination];
       {| kind := BiquadFilterNode lowpass 1200 1 0; outputs := [ToNode (L + 3)] |};
       {| kind := BiquadFilterNode peaking 300 (9 # 10) 2; outputs := [ToNode (L + 1)] |}]
  | Off => [src []; gain []]
  end.

Definition built_ids (a : Ambient) (L : nat) (old : list nat) : list nat :=
  match a with
  | White => [L; L + 1]
  | Rain | Forest => [L; L + 2; L + 3; L + 1]
  | Off => old
  end%nat.

(** A node after [disconnect()]. *)
Definition clear (n : Node) : Node := {| kind := kind n; outputs := [] |}.

(** The context lets [startAmbient] run through without waiting: it is
    running, or there is none yet and a new one starts running. *)
Definition ctx_ready (dev : Device) (w : World) : Prop :=
  ctx w = Some running \/ (ctx w = None /\ startsSuspended dev = false).

(** No node feeds the output device and no source plays. *)
Definition silent (h : list Node) : Prop :=
  forall i n, h !! i = Some n -> feeds_output n = false /\ is_playing n = false.

(** Nothing sounds and [audioRef] holds no graph. *)
Definition quiet (w : World) : Prop :=
  silent (heap w) /\ source w = None /\ nodes w = [].

(** [audioRef] accounts for everything that sounds: a node that feeds the
    output device is the last of [audioRef.current.nodes], a source that
    plays is [audioRef.current.source], and both name existing nodes. *)
Definition tracked (w : World) : Prop :=
  (forall i n, heap w !! i = Some n -> feeds_output n = true ->
     source w <> None /\ last (nodes w) = Some i) /\
  (forall i n, heap w !! i = Some n -> is_playing n = true -> source w = Some i) /\
  (forall i, In i (nodes w) -> (i < List.length (heap w))%nat) /\
  (forall i, source w = Some i -> (i < List.length (heap w))%nat) /\
  (source w = None -> nodes w = []).

(** At most one node feeds the output device and at most one source
    plays. *)
Definition at_most_one_graph (w : World) : Prop :=
  (List.length (ids_where feeds_output (heap w)) <= 1)%nat /\
  (List.length (ids_where is_playing (heap w)) <= 1)%nat.

End Audio.

(** ** What the page shows: [formatTime] and [progress] *)

Module View.

Import Persist.

(** The character of a decimal digit. *)
Definition digit (n : nat) : ascii := ascii_of_nat (48 + n).

(** [String(n)] for a natural number: its decimal digits, without leading
    zeros. [fuel] bounds the number of digits. *)
Fixpoint decimal (fuel n : nat) : string :=
  match fuel with
  | O => EmptyString
  | S fuel' =>
      if (n <? 10)%nat then String (digit n) EmptyString
      else decimal fuel' (n / 10)%nat ++ String (digit (n mod 10)%nat) EmptyString
  end%string.

Definition String_of_nat (n : nat) : string := decimal (S n) n.

(** [String(z)] for an integer. *)
Definition String_of_Z (z : Z) : string :=
  if (z <? 0)%Z then ("-" ++ String_of_nat (Z.to_nat (- z)))%string
  else String_of_nat (Z.to_nat z).

Fixpoint zeros (n : nat) : string :=
  match n with O => EmptyString | S n' => String "0" (zeros n') end.

(** [s.padStart(target, '0')]. *)
Definition padStart (target : nat) (s : string) : string :=
  (zeros (target - String.length s) ++ s)%string.

(** [formatTime(totalSeconds)] on an integer number of seconds, where
    [Math.floor(x / 60)] is integer division and [x % 60] the remainder. *)
Definition formatTime (totalSeconds : Z) : string :=
  let safeValue := Z.max totalSeconds 0 in
  let minutes := (safeValue / 60)%Z in
  let seconds := (safeValue mod 60)%Z in
  (padStart 2 (String_of_Z minutes) ++ ":" ++ padStart 2 (String_of_Z seconds))%string.

(** [progress]: the share of the cycle that has elapsed, for the ring. *)
Definition progress (s : Timer.AppState) : Q :=
  let cycleDuration := Timer.cycleDuration s in
  if Qeq_bool cycleDuration 0 then 0
  else Math_min (Math_max ((cycleDuration - Timer.secondsLeft s) / cycleDuration) 0) 1.

(** The number a string of decimal digits denotes, continuing from [acc]. *)
Fixpoint value_from (acc : nat) (s : string) : nat :=
  match s with
  | EmptyString => acc
  | String c rest => value_from (acc * 10 + (nat_of_ascii c - 48))%nat rest
  end.

(** The part of a string before its first colon, and the part after it. *)
Fixpoint before_colon (s : string) : string :=
  match s with
  | EmptyString => EmptyString
  | String c rest => if Ascii.eqb c ":" then EmptyString else String c (before_colon rest)
  end.

Fixpoint after_colon (s : string) : string :=
  match s with
  | EmptyString => EmptyString
  | String c rest => if Ascii.eqb c ":" then rest else after_colon rest
  end.

(** No character of the string is a colon. *)
Fixpoint no_colon (s : string) : bool :=
  match s with
  | EmptyString => true
  | String c rest => negb (Ascii.eqb c ":") && no_colon rest
  end.

(** The number of seconds a displayed time stands for. *)
Definition seconds_shown (s : string) : nat :=
  (value_from 0 (before_colon s) * 60 + value_from 0 (after_colon s))%nat.

End View.

(** ** The task list: [handleAddTask], [toggleTask], [removeTask] *)

Module Tasks.

Record TaskState : Type := { taskInput : string; tasks : list JsVal }.

(** [v === s] for a string [s]. *)
Definition strict_eq_string (v : JsVal) (s : string) : bool :=
  match v with JStr s' => String.eqb s' s | _ => false end.

Section Handlers.

(** [String.prototype.trim]. *)
Variable trim : string -> string.

(** [handleAddTask]; [newId] is the text
    [`${Date.now()}-${Math.floor(Math.random() * 100000)}`] evaluates to. *)
Definition handleAddTask (newId : string) (st : TaskState) : TaskState :=
  let cleanedText := trim (taskInput st) in
  if String.eqb cleanedText EmptyString then st
  else
    {| taskInput := EmptyString;
       tasks :=
         JObj [("id", JStr newId); ("title", JStr cleanedText); ("done", JBool false)]
         :: tasks st |}.

End Handlers.

(** The callback of [toggleTask]:
    [task.id === taskId ? { ...task, done: !task.done } : task]. *)
Definition toggle_one (taskId : string) (task : JsVal) : option JsVal :=
  id ← get task "id";
  if strict_eq_string id taskId then
    d ← get task "done";
    Some (JObj (set_field "done" (JBool (negb (truthy d))) (own_fields task)))
  else Some task.

(** [toggleTask(taskId)] on the task list: [prev.map(...)]. *)
Fixpoint toggleTask (taskId : string) (l : list JsVal) : option (list JsVal) :=
  match l with
  | [] => Some []
  | task :: rest =>
      task' ← toggle_one taskId task;
      rest' ← toggleTask taskId rest;
      Some (task' :: rest')
  end.

(** [removeTask(taskId)] on the task list:
    [prev.filter((task) => task.id !== taskId)]. *)
Fixpoint removeTask (taskId : string) (l : list JsVal) : option (list JsVal) :=
  match l with
  | [] => Some []
  | task :: rest =>
      id ← get task "id";
      rest' ← removeTask taskId rest;
      Some (if strict_eq_string id taskId then rest' else task :: rest')
  end.

(** What the user does with the task panel. *)
Inductive TaskEvent : Type :=
| TypeInput (text : string)
| SubmitTask (newId : string)
| ToggleTask (taskId : string)
| RemoveTask (taskId : string).

(** One event on the task state; [None] is an exception in a handler. *)
Definition task_step (trim : string -> string) (e : TaskEvent) (st : TaskState)
  : option TaskState :=
  match e with
  | TypeInput text => Some {| taskInput := text; tasks := tasks st |}
  | SubmitTask newId => Some (handleAddTask trim newId st)
  | ToggleTask taskId =>
      l ← toggleTask taskId (tasks st);
      Some {| taskInput := taskInput st; tasks := l |}
  | RemoveTask taskId =>
      l ← removeTask taskId (tasks st);
      Some {| taskInput := taskInput st; tasks := l |}
  end.

Fixpoint task_run (trim : string -> string) (es : list TaskEvent) (st : TaskState)
  : option TaskState :=
  match es with
  | [] => Some st
  | e :: rest => st' ← task_step trim e st; task_run trim rest st'
  end.

(** The [id] of a task of the list, when it is a string. *)
Definition task_id (t : JsVal) : option string :=
  match t with
  | JObj fs => match Persist.field fs "id" with JStr s => Some s | _ => None end
  | _ => None
  end.

(** The [done] flag of a task of the list, when it is a boolean. *)
Definition task_done (t : JsVal) : option bool :=
  match t with
  | JObj fs => match Persist.field fs "done" with JBool b => Some b | _ => None end
  | _ => None
  end.

Definition has_id (taskId : string) (t : JsVal) : bool :=
  match task_id t with Some s => String.eqb s taskId | None => false end.

Definition wellformed_tasks (l : list JsVal) : Prop :=
  Forall (fun t => Persist.task_wellformed t = true) l.

End Tasks.

(** ** Saving, reloading and leaving the page *)

Module Lifecycle.

Import Persist Audio.

(** The object the save effect builds from the state variables. *)
Definition stateToStore_of (s : Timer.AppState) (ts : list JsVal)
  (a : string) (v : Q) : Snapshot :=
  {| Persist.focusMinutes := Timer.focusMinutes s;
     Persist.breakMinutes := Timer.breakMinutes s;
     Persist.mode := Timer.mode s;
     Persist.secondsLeft := Timer.secondsLeft s;
     Persist.completedSessions := Timer.completedSessions s;
     Persist.tasks := ts;
     Persist.ambient := a;
     Persist.volume := v |}.

(** The timer [s], not running. *)
Definition paused (s : Timer.AppState) : Timer.AppState :=
  {| Timer.focusMinutes := Timer.focusMinutes s;
     Timer.breakMinutes := Timer.breakMinutes s;
     Timer.mode := Timer.mode s;
     Timer.secondsLeft := Timer.secondsLeft s;
     Timer.isRunning := false;
     Timer.completedSessions := Timer.completedSessions s;
     Timer.modeRef := Timer.modeRef s;
     Timer.focusRef := Timer.focusRef s;
     Timer.breakRef := Timer.breakRef s |}.

(** The cleanup of the effect with no dependencies, run when the component
    is unmounted: the statements of [stopAmbient] once more, then
    [ctx.close()] and [audioState.ctx = null]. *)
Definition unmountCleanup (w : World) : World :=
  let w :=
    match source w with
    | Some src =>
        let h := assign do_stop src (heap w) in
        let h := fold_left (fun h node => disconnect node h) (nodes w) h in
        {| ambient := ambient w; volume := volume w; ctx := ctx w;
           source := None; nodes := []; heap := h;
           draws := draws w; pending := pending w |}
    | None => w
    end in
  match ctx w with
  | Some _ => set_ctx None w
  | None => w
  end.

(** Unmounting runs the cleanups in the order the effects are declared: the
    ambient effect's, then the one above. *)
Definition unmount (w : World) : World :=
  unmountCleanup (ambientCleanup (ambient w) w).

(** [c] is not the full wipe. *)
Definition keeps_data (c : Timer.Command) : bool :=
  match c with Timer.ResetAllData => false | _ => true end.

(** [c] is a manual choice of mode, a reset, a full wipe or the click on one
    of the three preset buttons. *)
Definition restarts_cycle (c : Timer.Command) : bool :=
  match c with
  | Timer.SetMode _ | Timer.Reset | Timer.ResetAllData => true
  | Timer.ApplyPreset i => (i <? 3)%nat
  | _ => false
  end.

(** [{ ...task, done: Boolean(task.done) }] on an object. *)
Definition coerce_done (t : JsVal) : JsVal :=
  JObj (set_field "done" (JBool (truthy (field (own_fields t) "done")))
          (own_fields t)).

(** The filter of [getInitialState] as a test: an object whose [id] and
    [title] are strings. *)
Definition keepable (t : JsVal) : bool :=
  match t with
  | JObj fs => typeof_is_string (field fs "id") && typeof_is_string (field fs "title")
  | _ => false
  end.

(** Every connection in the heap starts at a node of
    [audioRef.current.nodes]. *)
Definition owned (w : World) : Prop :=
  forall i n, heap w !! i = Some n -> outputs n <> [] -> In i (nodes w).

(** No node of the heap has a connection. *)
Definition unwired (h : list Node) : Prop :=
  forall i n, h !! i = Some n -> outputs n = [].

(** No pending [ctx.resume()] is resolved among the events. *)
Definition never_resumed (es : list Event) : bool :=
  forallb (fun e => match e with ResumeResolved => false | _ => true end) es.

(** Nothing has been created and the context does not run. *)
Definition untouched (w : World) : Prop :=
  heap w = [] /\ source w = None /\ nodes w = [] /\ draws w = 0%nat /\
  ctx w <> Some running.

End Lifecycle.

(** * Properties *)

(** ** Numbers and objects *)

Module JSFacts.

Lemma Math_max_lower (q lo : Q) : lo <= Math_max q lo.
Proof.
  unfold Math_max. destruct (Qle_bool lo q) eqn:E.
  - now apply Qle_bool_iff.
  - apply Qle_refl.
Qed.

Lemma Math_max_keep (q lo : Q) : lo <= q -> Math_max q lo = q.
Proof.
  intros H. unfold Math_max.
  apply Qle_bool_iff in H. now rewrite H.
Qed.

Lemma Math_max_cases (q lo : Q) : Math_max q lo = q \/ Math_max q lo = lo.
Proof. unfold Math_max. destruct (Qle_bool lo q); auto. Qed.

Lemma Math_min_keep (q hi : Q) : q <= hi -> Math_min q hi = q.
Proof.
  intros H. unfold Math_min.
  apply Qle_bool_iff in H. now rewrite H.
Qed.

Lemma Math_min_cap (q hi : Q) : hi < q -> Math_min q hi = hi.
Proof.
  intros H. unfold Math_min.
  destruct (Qle_bool q hi) eqn:E; [|reflexivity].
  apply Qle_bool_iff in E. lra.
Qed.

Lemma Math_min_upper (q hi : Q) : Math_min q hi <= hi.
Proof.
  unfold Math_min. destruct (Qle_bool q hi) eqn:E.
  - now apply Qle_bool_iff.
  - apply Qle_refl.
Qed.

Lemma Math_min_lower (q hi lo : Q) : lo <= q -> lo <= hi -> lo <= Math_min q hi.
Proof. intros. unfold Math_min. destruct (Qle_bool q hi); assumption. Qed.

(** Clamping lands in the range whenever the range is not empty. *)
Lemma clamp_range (q lo hi : Q) :
  lo <= hi -> lo <= Math_min (Math_max q lo) hi /\ Math_min (Math_max q lo) hi <= hi.
Proof.
  intros H. split.
  - apply Math_min_lower; [apply Math_max_lower | exact H].
  - apply Math_min_upper.
Qed.

(** Clamping leaves a number of the range as it is. *)
Lemma clamp_keep (q lo hi : Q) :
  lo <= q -> q <= hi -> Math_min (Math_max q lo) hi = q.
Proof.
  intros H1 H2. rewrite Math_max_keep by exact H1. now apply Math_min_keep.
Qed.

Lemma lookup_set_field_same k v fs : lookup_field k (set_field k v fs) = Some v.
Proof.
  induction fs as [|[k' v'] fs IH]; simpl.
  - now rewrite String.eqb_refl.
  - destruct (String.eqb k k') eqn:E; simpl; rewrite E; auto.
Qed.

Lemma lookup_set_field_other k k' v fs :
  k <> k' -> lookup_field k' (set_field k v fs) = lookup_field k' fs.
Proof.
  intros Hne. induction fs as [|[k0 v0] fs IH]; simpl.
  - destruct (String.eqb k' k) eqn:E; [|reflexivity].
    apply String.eqb_eq in E. congruence.
  - destruct (String.eqb k k0) eqn:E; simpl.
    + apply String.eqb_eq in E. subst k0.
      destruct (String.eqb k' k) eqn:E'; [|reflexivity].
      apply String.eqb_eq in E'. congruence.
    + now rewrite IH.
Qed.

(** Writing to a property the value it already has changes nothing. *)
Lemma set_field_id k v fs : lookup_field k fs = Some v -> set_field k v fs = fs.
Proof.
  induction fs as [|[k' v'] fs IH]; simpl; [discriminate|].
  destruct (String.eqb k k') eqn:E.
  - intros [= ->]. reflexivity.
  - intros H. now rewrite IH.
Qed.

End JSFacts.

(** ** The persisted snapshot *)

Module PersistFacts.

Import Persist JSFacts.

Lemma task_ok_total t : exists b, task_ok t = Some b /\ (b = true -> task_kept t).
Proof.
  unfold task_ok, task_kept.
  destruct t as [| |b|n|s|l|fs]; simpl;
    try (exists false; split; [reflexivity | discriminate]).
  - destruct b; exists false; split; try reflexivity; discriminate.
  - destruct n as [|q]; [|destruct (Qeq_bool q 0)];
      exists false; split; try reflexivity; discriminate.
  - destruct (negb (String.eqb s EmptyString)); exists false; split;
      try reflexivity; discriminate.
  - fold (field fs "id"). destruct (typeof_is_string (field fs "id")) eqn:Hid; simpl.
    + fold (field fs "title").
      exists (typeof_is_string (field fs "title")). split; [reflexivity|].
      intros Ht. exists fs. auto.
    + exists false. split; [reflexivity | discriminate].
Qed.

Lemma filter_tasks_total l :
  exists kept, filter_tasks l = Some kept /\ Forall task_kept kept.
Proof.
  induction l as [|t l [kept [IH1 IH2]]]; simpl.
  - exists []. split; [reflexivity | constructor].
  - destruct (task_ok_total t) as [b [Hb Hk]]. rewrite Hb, IH1. simpl.
    destruct b.
    + exists (t :: kept). split; [reflexivity|]. constructor; auto.
    + exists kept. split; [reflexivity | assumption].
Qed.

Lemma task_clean_kept t :
  task_kept t -> exists t', task_clean t = Some t' /\ task_wellformed t' = true.
Proof.
  intros [fs [-> [Hid Htitle]]]. unfold task_clean. simpl.
  eexists. split; [reflexivity|].
  unfold task_wellformed, field in *.
  rewrite !lookup_set_field_other by discriminate.
  rewrite lookup_set_field_same, Hid, Htitle. reflexivity.
Qed.

Lemma map_tasks_total l :
  Forall task_kept l ->
  exists out, map_tasks l = Some out /\
    Forall (fun t => task_wellformed t = true) out.
Proof.
  induction 1 as [|t l Ht _ [out [IH1 IH2]]]; simpl.
  - exists []. split; [reflexivity | constructor].
  - destruct (task_clean_kept t Ht) as [t' [E Hw]]. rewrite E, IH1. simpl.
    exists (t' :: out). split; [reflexivity|]. constructor; auto.
Qed.

(** The task list of a parsed value is always produced, and is well
    formed. *)
Lemma safeTasks_total v :
  exists ts, safeTasks_of v = Some ts /\
    Forall (fun t => task_wellformed t = true) ts.
Proof.
  destruct v as [| |b|n|s|items|fs'];
    try (exists []; split; [reflexivity | constructor]).
  destruct (filter_tasks_total items) as [kept [Hk Hall]].
  destruct (map_tasks_total kept Hall) as [out [Ho Hw]].
  exists out. simpl. rewrite Hk. simpl. auto.
Qed.

(** On an object no property read throws: [sanitize] is the field-wise
    computation. *)
Lemma sanitize_object fs :
  exists ts,
    safeTasks_of (field fs "tasks") = Some ts /\
    Forall (fun t => task_wellformed t = true) ts /\
    sanitize (JObj fs) =
      Some {| focusMinutes := clampNumber (field fs "focusMinutes") 5 120 25;
              breakMinutes := clampNumber (field fs "breakMinutes") 1 45 5;
              mode := safeMode_of (field fs "mode");
              secondsLeft :=
                clampNumber (field fs "secondsLeft") 0
                  (durationSeconds (safeMode_of (field fs "mode"))
                     (clampNumber (field fs "focusMinutes") 5 120 25)
                     (clampNumber (field fs "breakMinutes") 1 45 5))
                  (durationSeconds (safeMode_of (field fs "mode"))
                     (clampNumber (field fs "focusMinutes") 5 120 25)
                     (clampNumber (field fs "breakMinutes") 1 45 5));
              completedSessions := clampNumber (field fs "completedSessions") 0 100000 0;
              tasks := ts;
              ambient :=
                match includes ambientValues (field fs "ambient") with
                | Some a => a
                | None => "off"
                end;
              volume := clampNumber (field fs "volume") 0 100 40 |}.
Proof.
  destruct (safeTasks_total (field fs "tasks")) as [ts [E Hw]].
  exists ts. split; [exact E|]. split; [exact Hw|].
  unfold sanitize, get. cbn [mbind option_bind].
  fold (field fs "mode") (field fs "focusMinutes")
    (field fs "breakMinutes") (field fs "tasks") (field fs "secondsLeft")
    (field fs "completedSessions") (field fs "ambient") (field fs "volume").
  rewrite E. cbn [mbind option_bind].
  unfold durationSeconds.
  destruct (safeMode_of (field fs "mode")); reflexivity.
Qed.

(** A parsed value that is not an object and not [null] has none of the
    properties: every field takes its default. *)
Lemma sanitize_non_object v :
  match v with JObj _ | JNull | JUndefined => False | _ => True end ->
  sanitize v = Some defaults.
Proof. destruct v; intros H; try contradiction; reflexivity. Qed.

Lemma sanitize_null : sanitize JNull = None.
Proof. reflexivity. Qed.


Lemma clampNumber_range v lo hi fb :
  lo <= hi -> lo <= fb -> fb <= hi ->
  lo <= clampNumber v lo hi fb /\ clampNumber v lo hi fb <= hi.
Proof.
  intros H Hl Hh. destruct v as [| |b|[|q]|s|l|fs]; simpl; auto.
  now apply clamp_range.
Qed.

Lemma clampNumber_not_number v lo hi fb :
  is_number v = false -> clampNumber v lo hi fb = fb.
Proof. destruct v as [| |b|[|q]|s|l|fs]; simpl; intros; congruence. Qed.

Lemma clampNumber_keep q lo hi fb :
  lo <= q -> q <= hi -> clampNumber (JNum (Num q)) lo hi fb = q.
Proof. intros. simpl. now apply clamp_keep. Qed.

Lemma clampNumber_above q lo hi fb :
  lo <= hi -> hi < q -> clampNumber (JNum (Num q)) lo hi fb = hi.
Proof.
  intros H1 H2. simpl. rewrite Math_max_keep by lra. now apply Math_min_cap.
Qed.

Lemma includes_known vals v a : includes vals v = Some a -> In a vals.
Proof.
  destruct v as [| |b|n|s|l|fs]; simpl; try discriminate.
  destruct (existsb (String.eqb s) vals) eqn:E; [|discriminate].
  intros [= <-]. apply existsb_exists in E. destruct E as [x [Hin Hx]].
  apply String.eqb_eq in Hx. now subst.
Qed.

Lemma defaults_valid : valid_state defaults.
Proof.
  constructor; simpl; try (split; lra); try lra.
  - left. reflexivity.
  - constructor.
Qed.

Lemma sanitize_valid v s :
  sanitize v = Some s -> valid_state s /\ completedSessions s <= 100000.
Proof.
  destruct v as [| |b|n|str|l|fs]; try discriminate;
    try (intros [= <-]; split; [apply defaults_valid | simpl; lra]).
  destruct (sanitize_object fs) as [ts [_ [Hw E]]]. rewrite E. intros [= <-].
  pose proof (clampNumber_range (field fs "focusMinutes") 5 120 25) as Hf.
  pose proof (clampNumber_range (field fs "breakMinutes") 1 45 5) as Hb.
  destruct Hf as [Hf1 Hf2]; try lra. destruct Hb as [Hb1 Hb2]; try lra.
  split; [constructor|]; simpl.
  - split; assumption.
  - split; assumption.
  - apply clampNumber_range;
      destruct (safeMode_of (field fs "mode")); simpl; lra.
  - apply clampNumber_range; lra.
  - apply clampNumber_range; lra.
  - destruct (includes ambientValues (field fs "ambient")) eqn:Ei.
    + exact (includes_known _ _ _ Ei).
    + left. reflexivity.
  - exact Hw.
  - apply clampNumber_range; lra.
Qed.


Lemma mode_string_safe m : safeMode_of (JStr (mode_string m)) = m.
Proof. destruct m; reflexivity. Qed.

Lemma includes_member a vals : In a vals -> includes vals (JStr a) = Some a.
Proof.
  intros H. simpl.
  replace (existsb (String.eqb a) vals) with true; [reflexivity|].
  symmetry. apply existsb_exists. exists a. split; [exact H | apply String.eqb_refl].
Qed.

Lemma includes_unknown vals v :
  (forall a, In a vals -> v <> JStr a) -> includes vals v = None.
Proof.
  intros H. destruct (includes vals v) as [a|] eqn:E; [|reflexivity].
  pose proof (includes_known _ _ _ E) as Hin.
  destruct v as [| |b|n|s|l|fs]; simpl in E; try discriminate.
  destruct (existsb (String.eqb s) vals); [|discriminate].
  injection E as <-. exfalso. now apply (H s).
Qed.

Lemma task_ok_wellformed t : task_wellformed t = true -> task_ok t = Some true.
Proof.
  destruct t as [| |b|n|s|l|fs]; simpl; try discriminate.
  intros H. apply andb_prop in H as [H _]. apply andb_prop in H as [Hi Ht].
  unfold task_ok. simpl. fold (field fs "id"). rewrite Hi. simpl.
  fold (field fs "title"). now rewrite Ht.
Qed.

Lemma task_clean_wellformed t : task_wellformed t = true -> task_clean t = Some t.
Proof.
  destruct t as [| |b|n|s|l|fs]; simpl; try discriminate.
  intros H. apply andb_prop in H as [_ Hd].
  unfold task_clean, field in *. simpl.
  destruct (lookup_field "done" fs) as [d|] eqn:E; [|discriminate].
  destruct d; try discriminate. simpl.
  now rewrite (set_field_id _ _ _ E).
Qed.

(** Well-formed tasks pass the filter and are rebuilt as they are. *)
Lemma safeTasks_wellformed l :
  Forall (fun t => task_wellformed t = true) l -> safeTasks_of (JArr l) = Some l.
Proof.
  intros H. simpl.
  assert (Hboth : filter_tasks l = Some l /\ map_tasks l = Some l).
  { induction H as [|t l Ht _ [IHf IHm]]; simpl; [split; reflexivity|].
    rewrite (task_ok_wellformed t Ht), (task_clean_wellformed t Ht), IHf, IHm.
    split; reflexivity. }
  destruct Hboth as [Hf Hm]. rewrite Hf. simpl. exact Hm.
Qed.

(** Whatever was stored, the snapshot the application starts from is
    valid. *)
Lemma getInitialState_valid st : valid_state (getInitialState st).
Proof.
  destruct st as [| | |v]; try apply defaults_valid. simpl.
  destruct (sanitize v) as [s|] eqn:E; [|apply defaults_valid].
  now apply (sanitize_valid v s).
Qed.

Lemma integral_divide q : integral q = true <-> (Zpos (Qden q) | Qnum q)%Z.
Proof.
  unfold integral. rewrite Z.eqb_eq. apply Z.mod_divide. discriminate.
Qed.

Lemma integral_mult a b :
  integral a = true -> integral b = true -> integral (a * b) = true.
Proof.
  rewrite !integral_divide. intros [k Hk] [m Hm].
  exists (k * m)%Z. simpl. rewrite Hk, Hm, Pos2Z.inj_mul. ring.
Qed.

(** [clampNumber] returns the stored number, a bound or the fallback. *)
Lemma clampNumber_cases v lo hi fb :
  clampNumber v lo hi fb = fb \/ clampNumber v lo hi fb = lo \/
  clampNumber v lo hi fb = hi \/
  exists q, v = JNum (Num q) /\ clampNumber v lo hi fb = q.
Proof.
  destruct v as [| |b|[|q]|s|l|fs]; simpl; auto.
  unfold Math_min, Math_max.
  destruct (Qle_bool lo q); destruct (Qle_bool _ hi); auto.
  right. right. right. exists q. split; reflexivity.
Qed.

Lemma clampNumber_integral v lo hi fb :
  integral lo = true -> integral hi = true -> integral fb = true ->
  integral_if_number v = true -> integral (clampNumber v lo hi fb) = true.
Proof.
  intros Hlo Hhi Hfb Hv.
  destruct (clampNumber_cases v lo hi fb) as [E|[E|[E|[q [-> E]]]]];
    rewrite E; assumption.
Qed.

(** Loading keeps integers: when every stored number is an integer, so is
    every numeric field of the loaded snapshot. *)
Lemma getInitialState_integers st :
  integral_store st = true -> integer_fields (getInitialState st).
Proof.
  assert (Hd : integer_fields defaults) by (constructor; reflexivity).
  destruct st as [| | |v]; try (intros _; exact Hd).
  destruct v as [| |b|n|s|l|fs]; try (intros _; exact Hd).
  simpl. intros H.
  apply andb_prop in H as [H Hv]. apply andb_prop in H as [H Hc].
  apply andb_prop in H as [H Hs]. apply andb_prop in H as [Hf Hb].
  destruct (sanitize_object fs) as [ts [_ [_ E]]]. rewrite E.
  assert (If : integral (clampNumber (field fs "focusMinutes") 5 120 25) = true)
    by (apply clampNumber_integral; auto).
  assert (Ib : integral (clampNumber (field fs "breakMinutes") 1 45 5) = true)
    by (apply clampNumber_integral; auto).
  assert (Id : integral
            (durationSeconds (safeMode_of (field fs "mode"))
               (clampNumber (field fs "focusMinutes") 5 120 25)
               (clampNumber (field fs "breakMinutes") 1 45 5)) = true).
  { destruct (safeMode_of (field fs "mode")); simpl; apply integral_mult; auto. }
  constructor; simpl; auto; apply clampNumber_integral; auto.
Qed.

(** C5, as stated, fails: the data model types every numeric field as an
    integer, and a stored focus duration of 7.5 minutes, which is within
    [5, 120], is loaded as 7.5. *)
Lemma sanitize_integers_counterexample :
  let s := getInitialState (Parsed (JObj [("focusMinutes", JNum (Num (15 # 2)))])) in
  focusMinutes s = 15 # 2 /\ ~ spec_valid_state s.
Proof.
  split; [reflexivity|].
  intros [_ [H _ _ _ _]]. vm_compute in H. discriminate.
Qed.

(** C5, amended. For every outcome of reading the store (any parsed value,
    or none) [getInitialState] returns a snapshot that satisfies the range
    invariants of the data model; no exception occurs on any value other than
    [null], where it is caught; a stored countdown above the duration of the
    sanitized mode, computed from the sanitized durations, loads as exactly
    that duration. Numbers are not rounded: a stored number within its range
    is loaded as it is, integer or not, so the numeric fields of the loaded
    snapshot are integers whenever every stored number is an integer. *)
Theorem sanitize_establishes_ranges (st : Stored) :
  valid_state (getInitialState st) /\
  (forall v, st = Parsed v -> v <> JNull -> v <> JUndefined ->
     sanitize v = Some (getInitialState st)) /\
  (forall fs q, st = Parsed (JObj fs) ->
     field fs "secondsLeft" = JNum (Num q) ->
     let s := getInitialState st in
     durationSeconds (mode s) (focusMinutes s) (breakMinutes s) < q ->
     secondsLeft s = durationSeconds (mode s) (focusMinutes s) (breakMinutes s)) /\
  (forall fs, st = Parsed (JObj fs) ->
     let s := getInitialState st in
     (forall q, field fs "focusMinutes" = JNum (Num q) -> 5 <= q -> q <= 120 ->
        focusMinutes s = q) /\
     (forall q, field fs "breakMinutes" = JNum (Num q) -> 1 <= q -> q <= 45 ->
        breakMinutes s = q) /\
     (forall q, field fs "secondsLeft" = JNum (Num q) -> 0 <= q ->
        q <= durationSeconds (mode s) (focusMinutes s) (breakMinutes s) ->
        secondsLeft s = q) /\
     (forall q, field fs "completedSessions" = JNum (Num q) -> 0 <= q ->
        q <= 100000 -> completedSessions s = q) /\
     (forall q, field fs "volume" = JNum (Num q) -> 0 <= q -> q <= 100 ->
        volume s = q)) /\
  (integral_store st = true -> spec_valid_state (getInitialState st)).
Proof.
  split; [|split; [|split; [|split]]].
  - apply getInitialState_valid.
  - intros v -> Hn Hu. simpl.
    destruct (sanitize v) as [s|] eqn:E; [reflexivity|].
    destruct v as [| |b|n|s|l|fs]; try congruence; try discriminate.
    destruct (sanitize_object fs) as [ts [_ [_ E']]]. congruence.
  - intros fs q -> Hq. simpl.
    destruct (sanitize_object fs) as [ts [_ [_ E]]]. rewrite E. simpl.
    rewrite Hq. intros Hlt. apply clampNumber_above; [|exact Hlt].
    pose proof (clampNumber_range (field fs "focusMinutes") 5 120 25).
    pose proof (clampNumber_range (field fs "breakMinutes") 1 45 5).
    destruct (safeMode_of (field fs "mode")); simpl; lra.
  - intros fs ->. simpl.
    destruct (sanitize_object fs) as [ts [_ [_ E]]]. rewrite E. simpl.
    repeat split; intros q Hq; rewrite Hq; apply clampNumber_keep.
  - intros H. split; [apply getInitialState_valid | now apply getInitialState_integers].
Qed.

Lemma sanitize_establishes_ranges_witness :
  let fs := [("mode", JStr "break"); ("breakMinutes", JNum (Num 900));
             ("secondsLeft", JNum (Num 9999)); ("volume", JNum (Num (67 # 2)))] in
  let st := Parsed (JObj fs) in
  sanitize (JObj fs) = Some (getInitialState st) /\
  secondsLeft (getInitialState st) = 45 * 60 /\
  volume (getInitialState st) = 67 # 2 /\
  spec_valid_state
    (getInitialState
       (Parsed (JObj [("focusMinutes", JNum (Num 500)); ("volume", JStr "loud");
                      ("secondsLeft", JNum (Num 90))]))).
Proof.
  intros fs st. destruct (sanitize_establishes_ranges st) as [_ [H2 [H3 [H4 _]]]].
  split; [apply H2; [reflexivity | discriminate | discriminate]|].
  split; [exact (H3 fs 9999 eq_refl eq_refl eq_refl)|].
  split.
  - destruct (H4 fs eq_refl) as [_ [_ [_ [_ Hv]]]].
    apply (Hv (67 # 2)); [reflexivity | discriminate | discriminate].
  - apply (proj2 (proj2 (proj2 (proj2 (sanitize_establishes_ranges
       (Parsed (JObj [("focusMinutes", JNum (Num 500)); ("volume", JStr "loud");
                      ("secondsLeft", JNum (Num 90))]))))))).
    reflexivity.
Defined.



(** C4, as stated, fails: a state with 100001 completed sessions satisfies
    every invariant of the data model and loads back with 100000. *)
Lemma roundtrip_counterexample :
  let s := {| focusMinutes := 25; breakMinutes := 5; mode := Focus;
              secondsLeft := 1500; completedSessions := 100001;
              tasks := []; ambient := "off"; volume := 40 |} in
  valid_state s /\ getInitialState (saved s) <> s.
Proof.
  split.
  - constructor; simpl; try (split; lra); try lra.
    + left. reflexivity.
    + constructor.
  - intros H. apply (f_equal completedSessions) in H.
    vm_compute in H. discriminate.
Qed.

(** C4, amended. A state that satisfies the invariants of the data model
    and has at most 100000 completed sessions is read back, after the save
    effect stored it, exactly as it was. *)
Theorem roundtrip (s : Snapshot) :
  valid_state s -> completedSessions s <= 100000 ->
  getInitialState (saved s) = s.
Proof.
  intros [[Hf1 Hf2] [Hb1 Hb2] [Hs1 Hs2] Hc [Hv1 Hv2] Ha Ht] Hcap.
  destruct s as [f b m sl c ts a v]. simpl in *.
  unfold saved, getInitialState, stateToStore. simpl Persist.focusMinutes.
  simpl Persist.breakMinutes. simpl Persist.mode. simpl Persist.secondsLeft.
  simpl Persist.completedSessions. simpl Persist.tasks. simpl Persist.ambient.
  simpl Persist.volume.
  match goal with |- context [sanitize (JObj ?l)] =>
    destruct (sanitize_object l) as [ts' [Ets [_ E]]]; rewrite E; clear E
  end.
  change (safeTasks_of (JArr ts) = Some ts') in Ets.
  rewrite (safeTasks_wellformed ts Ht) in Ets. injection Ets as <-.
  match goal with |- context [field ?l "focusMinutes"] =>
    change (field l "focusMinutes") with (JNum (Num f));
    change (field l "breakMinutes") with (JNum (Num b));
    change (field l "mode") with (JStr (mode_string m));
    change (field l "secondsLeft") with (JNum (Num sl));
    change (field l "completedSessions") with (JNum (Num c));
    change (field l "ambient") with (JStr a);
    change (field l "volume") with (JNum (Num v))
  end.
  rewrite mode_string_safe, (includes_member a ambientValues Ha).
  rewrite (clampNumber_keep f 5 120 25 Hf1 Hf2).
  rewrite (clampNumber_keep b 1 45 5 Hb1 Hb2).
  rewrite (clampNumber_keep c 0 100000 0 Hc Hcap).
  rewrite (clampNumber_keep v 0 100 40 Hv1 Hv2).
  rewrite (clampNumber_keep sl 0 _ _ Hs1 Hs2).
  reflexivity.
Qed.

Lemma roundtrip_witness :
  let s := {| focusMinutes := 50; breakMinutes := 10; mode := Break;
              secondsLeft := 417; completedSessions := 3;
              tasks := [JObj [("id", JStr "1700000000000-42");
                              ("title", JStr "write the report");
                              ("done", JBool true)]];
              ambient := "rain"; volume := 65 |} in
  getInitialState (saved s) = s.
Proof.
  intros s. apply roundtrip.
  - constructor; simpl.
    + split; discriminate.
    + split; discriminate.
    + split; discriminate.
    + discriminate.
    + split; discriminate.
    + right. right. left. reflexivity.
    + constructor; [reflexivity | constructor].
  - simpl. discriminate.
Defined.

(** C6, as stated, fails: a stored object whose only property is an
    out-of-range [focusMinutes] violates the schema and does not load as the
    defaults. *)
Lemma load_defaults_counterexample :
  getInitialState (Parsed (JObj [("focusMinutes", JNum (Num 500))])) <> defaults.
Proof.
  intros H. apply (f_equal focusMinutes) in H. vm_compute in H. discriminate.
Qed.

(** C6, amended. An absent, empty or unparsable stored value, and a parsed
    value that is not an object, load as the defaults without an error. A
    stored object is sanitized field by field: a property that is missing or
    of the wrong type takes its default (25, 5, focus, 0, no tasks, off, 40;
    the countdown takes the full duration of the sanitized mode), so an object
    with no usable property loads as the defaults; an ambient value that is
    not one of the four profiles, such as "disco", loads as "off". *)
Theorem load_defaults :
  getInitialState Missing = defaults /\
  getInitialState EmptyText = defaults /\
  getInitialState Unparsable = defaults /\
  (forall v, match v with JObj _ => False | _ => True end ->
     getInitialState (Parsed v) = defaults) /\
  (forall fs, let s := getInitialState (Parsed (JObj fs)) in
     (is_number (field fs "focusMinutes") = false -> focusMinutes s = 25) /\
     (is_number (field fs "breakMinutes") = false -> breakMinutes s = 5) /\
     (field fs "mode" <> JStr "break" -> mode s = Focus) /\
     (is_number (field fs "secondsLeft") = false ->
        secondsLeft s = durationSeconds (mode s) (focusMinutes s) (breakMinutes s)) /\
     (is_number (field fs "completedSessions") = false -> completedSessions s = 0) /\
     ((forall items, field fs "tasks" <> JArr items) -> tasks s = []) /\
     ((forall a, In a ambientValues -> field fs "ambient" <> JStr a) ->
        ambient s = "off") /\
     (is_number (field fs "volume") = false -> volume s = 40) /\
     (is_number (field fs "focusMinutes") = false ->
      is_number (field fs "breakMinutes") = false ->
      field fs "mode" <> JStr "break" ->
      is_number (field fs "secondsLeft") = false ->
      is_number (field fs "completedSessions") = false ->
      (forall items, field fs "tasks" <> JArr items) ->
      (forall a, In a ambientValues -> field fs "ambient" <> JStr a) ->
      is_number (field fs "volume") = false ->
      s = defaults)) /\
  ambient (getInitialState (Parsed (JObj [("ambient", JStr "disco")]))) = "off".
Proof.
  repeat match goal with |- _ /\ _ => split end; try reflexivity.
  - intros v Hv. destruct v as [| |b|n|s|l|fs]; try reflexivity. contradiction.
  - intros fs. simpl.
    destruct (sanitize_object fs) as [ts [Ets [_ E]]]. rewrite E. simpl.
    assert (Hmode : field fs "mode" <> JStr "break" ->
                    safeMode_of (field fs "mode") = Focus).
    { intros Hm. unfold safeMode_of.
      destruct (field fs "mode") as [| |b|n|s|l|fs']; try reflexivity.
      destruct (String.eqb s "break") eqn:Es; [|reflexivity].
      apply String.eqb_eq in Es. congruence. }
    assert (Htasks : (forall items, field fs "tasks" <> JArr items) -> ts = []).
    { intros Hn. destruct (field fs "tasks") as [| |b|n|s|l|fs'];
        simpl in Ets; try (injection Ets as <-; reflexivity).
      exfalso. now apply (Hn l). }
    assert (Hamb : (forall a, In a ambientValues -> field fs "ambient" <> JStr a) ->
                   match includes ambientValues (field fs "ambient") with
                   | Some a => a | None => "off" end = "off").
    { intros Hn. now rewrite (includes_unknown _ _ Hn). }
    repeat match goal with |- _ /\ _ => split end;
      try apply clampNumber_not_number; try assumption.
    intros H1 H2 H3 H4 H5 H6 H7 H8.
    rewrite (Htasks H6), (Hamb H7), (Hmode H3).
    rewrite !clampNumber_not_number by assumption. reflexivity.
Qed.

Lemma load_defaults_witness :
  getInitialState (Parsed (JArr [])) = defaults /\
  volume (getInitialState (Parsed (JObj [("volume", JStr "loud")]))) = 40 /\
  getInitialState
    (Parsed (JObj [("mode", JNum (Num 1)); ("tasks", JStr "none");
                   ("ambient", JStr "disco"); ("volume", JNull)])) = defaults.
Proof.
  destruct load_defaults as [_ [_ [_ [Hv [Hfs _]]]]].
  split; [exact (Hv (JArr []) I)|]. split.
  - destruct (Hfs [("volume", JStr "loud")]) as [_ [_ [_ [_ [_ [_ [_ [H _]]]]]]]].
    exact (H eq_refl).
  - destruct (Hfs [("mode", JNum (Num 1)); ("tasks", JStr "none");
                   ("ambient", JStr "disco"); ("volume", JNull)])
      as [_ [_ [_ [_ [_ [_ [_ [_ H]]]]]]]].
    apply H; try reflexivity; try discriminate.
    intros a [<-|[<-|[<-|[<-|[]]]]]; discriminate.
Defined.

End PersistFacts.

(** ** The session timer *)

Module TimerFacts.

Import Persist Timer JSFacts PersistFacts.

(** C7. From any state and for either mode, choosing a mode by hand makes
    it the current mode, stops the countdown, sets the countdown to that
    mode's duration and leaves the count of completed sessions (and both
    durations) as they were. *)
Theorem setMode_keeps_sessions (s : AppState) (m : Mode) :
  let s' := exec (SetMode m) s in
  mode s' = m /\
  isRunning s' = false /\
  secondsLeft s' = durationSeconds m (focusMinutes s) (breakMinutes s) /\
  secondsLeft s' = cycleDuration s' /\
  completedSessions s' = completedSessions s /\
  focusMinutes s' = focusMinutes s /\
  breakMinutes s' = breakMinutes s.
Proof. destruct m; repeat split; reflexivity. Qed.

Lemma refs_synced_sync s : refs_synced (sync_refs s).
Proof. repeat split. Qed.

Lemma exec_refs_synced c s : refs_synced s -> refs_synced (exec c s).
Proof.
  intros H. destruct c; simpl; try apply refs_synced_sync.
  - destruct (isRunning s); [apply refs_synced_sync | exact H].
  - destruct (nth_error PRESETS i); [apply refs_synced_sync | exact H].
Qed.

Lemma boot_refs_synced st : refs_synced (boot st).
Proof. repeat split. Qed.

Lemma nextFocus_range v :
  5 <= Math_min (Math_max (or_default v 5) 5) 120 /\
  Math_min (Math_max (or_default v 5) 5) 120 <= 120.
Proof. apply clamp_range. lra. Qed.

Lemma nextBreak_range v :
  1 <= Math_min (Math_max (or_default v 1) 1) 45 /\
  Math_min (Math_max (or_default v 1) 1) 45 <= 45.
Proof. apply clamp_range. lra. Qed.

Lemma preset_values i p :
  nth_error PRESETS i = Some p ->
  5 <= focus p /\ focus p <= 120 /\ 1 <= rest p /\ rest p <= 45.
Proof.
  destruct i as [|[|[|i]]]; simpl;
    [intros [= <-]; simpl; lra ..|].
  destruct i; discriminate.
Qed.

Lemma exec_durations_legal c s : durations_legal s -> durations_legal (exec c s).
Proof.
  unfold durations_legal. intros H.
  destruct c; simpl; try assumption.
  - destruct (isRunning s); [|assumption]. unfold intervalTick.
    destruct (negb (Qle_bool (secondsLeft s) 1)); simpl; assumption.
  - pose proof (nextFocus_range v). simpl. lra.
  - pose proof (nextBreak_range v). simpl. lra.
  - destruct (nth_error PRESETS i) as [p|] eqn:E; [|assumption].
    simpl. now apply (preset_values i).
  - simpl. lra.
Qed.

Ltac tick_cases s :=
  unfold intervalTick;
  let E := fresh "E" in
  destruct (Qle_bool (secondsLeft s) 1) eqn:E; simpl;
  [ apply Qle_bool_iff in E
  | assert (1 < secondsLeft s)
      by (apply Qnot_le_lt; intros Hle; apply Qle_bool_iff in Hle; congruence) ].

(** The countdown never leaves [0, longest cycle of the mode], whatever the
    command. *)
Lemma exec_weak_bound c s :
  refs_synced s -> durations_legal s ->
  0 <= secondsLeft s /\ secondsLeft s <= longestCycle (mode s) ->
  0 <= secondsLeft (exec c s) /\ secondsLeft (exec c s) <= longestCycle (mode (exec c s)).
Proof.
  intros [Hm [Hf Hb]] Hd [H0 H1]. unfold durations_legal in Hd.
  destruct c; simpl; try (split; assumption).
  - destruct (isRunning s); [|split; assumption].
    tick_cases s.
    + rewrite Hm, Hf, Hb. destruct (mode s); simpl; lra.
    + split; lra.
  - destruct m; simpl; lra.
  - pose proof (nextFocus_range v).
    destruct (negb (isRunning s) && Mode_eqb (mode s) Focus) eqn:E.
    + apply andb_prop in E as [_ E]. destruct (mode s); try discriminate.
      simpl. lra.
    + split; assumption.
  - pose proof (nextBreak_range v).
    destruct (negb (isRunning s) && Mode_eqb (mode s) Break) eqn:E.
    + apply andb_prop in E as [_ E]. destruct (mode s); try discriminate.
      simpl. lra.
    + split; assumption.
  - destruct (nth_error PRESETS i) as [p|] eqn:E; [|split; assumption].
    pose proof (preset_values i p E). simpl. lra.
  - simpl. lra.
  - simpl. lra.
Qed.

(** The countdown stays within the duration of the current mode under every
    command that does not edit the phase that is counting down. *)
Lemma exec_in_range c s :
  refs_synced s -> durations_legal s -> edits_running_phase c s = false ->
  countdown_in_range s -> countdown_in_range (exec c s).
Proof.
  unfold countdown_in_range, cycleDuration.
  intros [Hm [Hf Hb]] Hd He [H0 H1]. unfold durations_legal in Hd.
  destruct c; simpl; try (split; assumption).
  - destruct (isRunning s); [|split; assumption].
    tick_cases s.
    + rewrite Hm, Hf, Hb. destruct (mode s); simpl; lra.
    + split; lra.
  - destruct m; simpl; lra.
  - pose proof (nextFocus_range v).
    unfold edits_running_phase in He.
    destruct (isRunning s), (mode s); simpl in *; try discriminate; lra.
  - pose proof (nextBreak_range v).
    unfold edits_running_phase in He.
    destruct (isRunning s), (mode s); simpl in *; try discriminate; lra.
  - destruct (nth_error PRESETS i) as [p|] eqn:E; [|split; assumption].
    pose proof (preset_values i p E). simpl. lra.
  - simpl. lra.
  - simpl. lra.
Qed.

Lemma boot_state st :
  durations_legal (boot st) /\ countdown_in_range (boot st).
Proof.
  destruct (getInitialState_valid st) as [Hf Hb Hs _ _ _ _].
  split; [unfold durations_legal; simpl; tauto | exact Hs].
Qed.

Lemma in_range_weak s :
  durations_legal s -> countdown_in_range s ->
  0 <= secondsLeft s /\ secondsLeft s <= longestCycle (mode s).
Proof.
  unfold durations_legal, countdown_in_range, cycleDuration.
  intros Hd [H0 H1]. destruct (mode s); simpl in *; lra.
Qed.

Lemma run_weak_bound cs : forall s,
  refs_synced s -> durations_legal s ->
  0 <= secondsLeft s /\ secondsLeft s <= longestCycle (mode s) ->
  0 <= secondsLeft (run cs s) /\ secondsLeft (run cs s) <= longestCycle (mode (run cs s)).
Proof.
  induction cs as [|c cs IH]; intros s Hr Hd Hw; [exact Hw|].
  simpl. apply IH.
  - now apply exec_refs_synced.
  - now apply exec_durations_legal.
  - now apply exec_weak_bound.
Qed.

Lemma run_in_range cs : forall s,
  refs_synced s -> durations_legal s -> edits_only_idle cs s = true ->
  countdown_in_range s -> countdown_in_range (run cs s).
Proof.
  induction cs as [|c cs IH]; intros s Hr Hd He Hi; [exact Hi|].
  simpl in *. apply andb_prop in He as [He1 He2].
  apply negb_true_iff in He1. apply IH.
  - now apply exec_refs_synced.
  - now apply exec_durations_legal.
  - exact He2.
  - now apply exec_in_range.
Qed.

(** C2, as stated, fails: after start, shortening the focus duration to five
    minutes leaves the countdown at 1500 seconds while the mode's duration is
    300. *)
Lemma countdown_invariant_counterexample :
  let s := run [ToggleRunning; SetFocusDuration (Num 5)] (boot Missing) in
  isRunning s = true /\ ~ countdown_in_range s.
Proof.
  split; [reflexivity|]. intros [_ H]. vm_compute in H. apply H. reflexivity.
Qed.

(** C2, amended. In every state reachable from a loaded snapshot by any
    sequence of commands the countdown is at least 0 and at most the longest
    cycle its mode allows (7200 seconds for focus, 2700 for break); and it is
    at most the duration of the current mode whenever no command of the
    sequence edited the duration of the phase that was counting down. An
    edit of either duration while the timer runs leaves the countdown as it
    was. *)
Theorem countdown_invariant (st : Stored) (cs : list Command) :
  let s := run cs (boot st) in
  (0 <= secondsLeft s /\ secondsLeft s <= longestCycle (mode s)) /\
  (edits_only_idle cs (boot st) = true -> countdown_in_range s) /\
  (forall v, isRunning s = true ->
     secondsLeft (exec (SetFocusDuration v) s) = secondsLeft s /\
     secondsLeft (exec (SetBreakDuration v) s) = secondsLeft s).
Proof.
  destruct (boot_state st) as [Hd Hi]. split; [|split].
  - apply run_weak_bound; auto using boot_refs_synced. now apply in_range_weak.
  - intros He. apply run_in_range; auto using boot_refs_synced.
  - intros v Hrun. simpl. rewrite Hrun. split; reflexivity.
Qed.

Lemma countdown_invariant_witness :
  let cs := [SetFocusDuration (Num 30); ToggleRunning; Tick; Tick;
             SetBreakDuration (Num 7); ToggleRunning; SetFocusDuration (Num 10);
             ApplyPreset 2; SetMode Break; ToggleRunning; Tick] in
  countdown_in_range (run cs (boot Missing)).
Proof.
  intros cs. apply (proj1 (proj2 (countdown_invariant Missing cs))). reflexivity.
Defined.

Lemma inject_succ (k : nat) :
  inject_Z (Z.of_nat (S k)) == inject_Z (Z.of_nat k) + 1.
Proof. rewrite Nat2Z.inj_succ. unfold Z.succ. now rewrite inject_Z_plus. Qed.

Lemma ticks_succ k s : ticks (S k) s = exec Tick (ticks k s).
Proof. reflexivity. Qed.

(** While more than [k] seconds are left, [k] ticks only count down. *)
Lemma ticks_countdown s k :
  refs_synced s -> isRunning s = true ->
  inject_Z (Z.of_nat k) < secondsLeft s ->
  same_phase s (ticks k s) /\
  secondsLeft (ticks k s) == secondsLeft s - inject_Z (Z.of_nat k).
Proof.
  intros Hr Hrun. induction k as [|k IH]; intros Hlt.
  - simpl. split; [repeat split; apply Hr|]. unfold inject_Z. ring.
  - rewrite inject_succ in Hlt.
    destruct IH as [[Hm [Hc [Hi [Hf [Hb Hs]]]]] Hq]; [lra|].
    rewrite ticks_succ. set (sk := ticks k s) in *.
    unfold exec. rewrite Hi, Hrun. unfold intervalTick.
    assert (E : Qle_bool (secondsLeft sk) 1 = false).
    { destruct (Qle_bool (secondsLeft sk) 1) eqn:E; [|reflexivity].
      apply Qle_bool_iff in E. rewrite Hq in E. lra. }
    rewrite E. simpl. split.
    + repeat split; assumption.
    + rewrite Hq, inject_succ. ring.
Qed.

(** With at most one second left, a tick starts the other phase, and counts
    a session when the phase that ends is a focus phase. *)
Lemma tick_expires s :
  refs_synced s -> isRunning s = true -> secondsLeft s <= 1 ->
  let s' := exec Tick s in
  mode s' = match mode s with Focus => Break | Break => Focus end /\
  secondsLeft s' = cycleDuration s' /\
  completedSessions s' =
    match mode s with
    | Focus => completedSessions s + 1
    | Break => completedSessions s
    end /\
  isRunning s' = true /\
  focusMinutes s' = focusMinutes s /\ breakMinutes s' = breakMinutes s /\
  refs_synced s'.
Proof.
  intros [Hm [Hf Hb]] Hrun Hle. unfold exec. rewrite Hrun. unfold intervalTick.
  apply Qle_bool_iff in Hle. rewrite Hle. simpl. rewrite Hm, Hf, Hb.
  unfold cycleDuration. simpl.
  destruct (mode s); repeat split; try reflexivity; assumption.
Qed.

(** One whole phase: [n + 1] ticks from [n + 1] seconds. *)
Lemma phase_runs_out s n :
  refs_synced s -> isRunning s = true ->
  secondsLeft s == inject_Z (Z.of_nat (S n)) ->
  (forall k, (k <= n)%nat -> same_phase s (ticks k s)) /\
  let s' := ticks (S n) s in
  mode s' = match mode s with Focus => Break | Break => Focus end /\
  secondsLeft s' = cycleDuration s' /\
  completedSessions s' =
    match mode s with
    | Focus => completedSessions s + 1
    | Break => completedSessions s
    end /\
  isRunning s' = true /\
  focusMinutes s' = focusMinutes s /\ breakMinutes s' = breakMinutes s /\
  refs_synced s'.
Proof.
  intros Hr Hrun Hq.
  assert (Hk : forall k, (k <= n)%nat ->
            same_phase s (ticks k s) /\
            secondsLeft (ticks k s) == secondsLeft s - inject_Z (Z.of_nat k)).
  { intros k Hk. apply ticks_countdown; auto.
    rewrite Hq, <- Zlt_Qlt. lia. }
  split; [intros k Hle; now apply Hk|].
  destruct (Hk n (le_n n)) as [[Hm [Hc [Hi [Hf [Hb Hs]]]]] Hn].
  rewrite ticks_succ.
  destruct (tick_expires (ticks n s)) as [Em [Es [Ec [Ei [Ef [Eb Er]]]]]].
  - exact Hs.
  - congruence.
  - rewrite Hn, Hq, inject_succ. lra.
  - cbv zeta. rewrite Em, Ec, Ef, Eb, Hm, Hc, Hf, Hb.
    repeat (split; [first [reflexivity | assumption]|]). exact Er.
Qed.

(** C1. From the running focus state with the countdown at the focus
    duration of [N] seconds: during the first [N - 1] ticks the mode stays
    focus and no session is counted; the [N]-th tick switches to break, sets
    the countdown to the break duration, counts one session and keeps the
    timer running. During the next [M - 1] ticks ([M] the break duration in
    seconds) the mode stays break; the [M]-th returns to focus with the
    countdown at the focus duration, and the session count is still the
    initial count plus one. *)
Theorem focus_break_cycle (s : AppState) (N M : nat) :
  refs_synced s -> isRunning s = true -> mode s = Focus ->
  secondsLeft s = cycleDuration s ->
  focusMinutes s * 60 == inject_Z (Z.of_nat N) -> (1 <= N)%nat ->
  breakMinutes s * 60 == inject_Z (Z.of_nat M) -> (1 <= M)%nat ->
  let s1 := ticks N s in
  let s2 := ticks M s1 in
  (forall k, (k < N)%nat ->
     mode (ticks k s) = Focus /\
     completedSessions (ticks k s) = completedSessions s) /\
  mode s1 = Break /\
  secondsLeft s1 = breakMinutes s * 60 /\
  completedSessions s1 = completedSessions s + 1 /\
  isRunning s1 = true /\
  (forall k, (k < M)%nat ->
     mode (ticks k s1) = Break /\
     completedSessions (ticks k s1) = completedSessions s + 1) /\
  mode s2 = Focus /\
  secondsLeft s2 = focusMinutes s * 60 /\
  completedSessions s2 = completedSessions s + 1 /\
  isRunning s2 = true.
Proof.
  intros Hr Hrun Hmode Hsec HN HN1 HM HM1 s1 s2.
  destruct N as [|n]; [lia|]. destruct M as [|m]; [lia|].
  unfold cycleDuration in Hsec. rewrite Hmode in Hsec. simpl in Hsec.
  destruct (phase_runs_out s n Hr Hrun) as [Hk1 [Em1 [Es1 [Ec1 [Ei1 [Ef1 [Eb1 Er1]]]]]]].
  { now rewrite Hsec. }
  fold s1 in Em1, Es1, Ec1, Ei1, Ef1, Eb1, Er1.
  rewrite Hmode in Em1, Ec1.
  unfold cycleDuration in Es1. rewrite Em1 in Es1. simpl in Es1.
  destruct (phase_runs_out s1 m Er1 Ei1) as [Hk2 [Em2 [Es2 [Ec2 [Ei2 [Ef2 [Eb2 _]]]]]]].
  { now rewrite Es1, Eb1. }
  fold s2 in Em2, Es2, Ec2, Ei2, Ef2, Eb2.
  rewrite Em1 in Em2, Ec2.
  unfold cycleDuration in Es2. rewrite Em2 in Es2. simpl in Es2.
  repeat split; try congruence.
  - destruct (Hk1 k) as [Hm _]; [lia | congruence].
  - destruct (Hk1 k) as [_ [Hc _]]; [lia | congruence].
  - destruct (Hk2 k) as [Hm _]; [lia | congruence].
  - destruct (Hk2 k) as [_ [Hc _]]; [lia | congruence].
Qed.

Lemma focus_break_cycle_witness :
  let s := exec ToggleRunning (boot Missing) in
  mode (ticks 1500 s) = Break /\
  secondsLeft (ticks 1500 s) = 5 * 60 /\
  completedSessions (ticks 1500 s) = 0 + 1 /\
  isRunning (ticks 1500 s) = true /\
  mode (ticks 300 (ticks 1500 s)) = Focus /\
  completedSessions (ticks 300 (ticks 1500 s)) = 0 + 1.
Proof.
  intros s.
  destruct (focus_break_cycle s 1500 300) as [_ [H1 [H2 [H3 [H4 [_ [H5 [_ [H6 _]]]]]]]]];
    try reflexivity; try lia.
  - repeat split.
  - repeat split; assumption.
Defined.

End TimerFacts.

(** ** The ambient sound graph *)

Module AudioFacts.

Import Audio.

(** The profiles are the [value]s of [AMBIENT_OPTIONS], the only strings
    the [ambient] state variable ever holds. *)
Lemma ambient_string_values :
  map ambient_string [Off; White; Rain; Forest] = Persist.ambientValues.
Proof. reflexivity. Qed.

(** *** The node heap *)

Lemma alter_fresh {A} (f : A -> A) (h l : list A) (k : nat) :
  alter f (List.length h + k)%nat (h ++ l) = h ++ alter f k l.
Proof. apply alter_app_r. Qed.

Lemma alter_fresh0 {A} (f : A -> A) (h l : list A) :
  alter f (List.length h) (h ++ l) = h ++ alter f 0%nat l.
Proof. rewrite <- (Nat.add_0_r (List.length h)) at 1. apply alter_app_r. Qed.

Lemma lookup_fresh {A} (h l : list A) (k : nat) :
  (h ++ l) !! (List.length h + k)%nat = l !! k.
Proof. rewrite lookup_app_r by lia. f_equal. lia. Qed.

Ltac heap_norm :=
  repeat first
    [ rewrite length_app
    | rewrite <- app_assoc
    | rewrite <- Nat.add_assoc
    | rewrite alter_fresh
    | rewrite alter_fresh0
    | progress cbn [List.length app Nat.add alter list_alter with_kind kind outputs
                    set_buffer set_loop set_gain set_type set_frequency set_Q
                    do_start do_stop newBufferSource newGain newBiquadFilter] ].

(** What a build leaves behind: the old heap, then the new nodes. *)
Lemma build_graph_shape dev a v w :
  build_graph dev a v w =
    {| ambient := ambient w; volume := volume w; ctx := ctx w;
       source := Some (List.length (heap w));
       nodes := built_ids a (List.length (heap w)) (nodes w);
       heap := heap w ++
               built_nodes a v (List.length (heap w)) (noise dev (draws w));
       draws := (draws w + sampleRate dev * 2)%nat;
       pending := pending w |}.
Proof.
  unfold build_graph, createNode, assign, connect, noise, built_nodes, built_ids.
  destruct a; cbv beta iota zeta; heap_norm; reflexivity.
Qed.

Lemma disconnect_all_lookup ids : forall h i,
  fold_left (fun h node => disconnect node h) ids h !! i =
    if existsb (Nat.eqb i) ids then clear <$> h !! i else h !! i.
Proof.
  induction ids as [|a ids IH]; intros h i; simpl; [reflexivity|].
  rewrite IH. unfold disconnect. fold clear.
  destruct (Nat.eqb_spec i a) as [->|Hne]; simpl.
  - rewrite list_lookup_alter_eq.
    destruct (existsb (Nat.eqb a) ids); [|reflexivity].
    destruct (h !! a); reflexivity.
  - rewrite list_lookup_alter_ne by congruence. reflexivity.
Qed.

Lemma disconnect_all_length ids : forall h,
  List.length (fold_left (fun h node => disconnect node h) ids h) = List.length h.
Proof.
  induction ids as [|a ids IH]; intros h; simpl; [reflexivity|].
  rewrite IH. unfold disconnect. apply length_alter.
Qed.

Lemma existsb_eqb_In i ids : existsb (Nat.eqb i) ids = true <-> In i ids.
Proof.
  rewrite existsb_exists. split.
  - intros [x [Hin Hx]]. apply Nat.eqb_eq in Hx. now subst.
  - intros H. exists i. split; [exact H | apply Nat.eqb_refl].
Qed.

(** The heap [stopAmbient] leaves, node by node. *)
Lemma stopAmbient_lookup w src i :
  source w = Some src ->
  heap (stopAmbient w) !! i =
    (fun n => if existsb (Nat.eqb i) (nodes w) then clear n else n) <$>
    ((fun n => if Nat.eqb i src then with_kind do_stop n else n) <$> heap w !! i).
Proof.
  intros Hs. unfold stopAmbient. rewrite Hs. cbn [heap].
  rewrite disconnect_all_lookup. unfold assign.
  destruct (Nat.eqb_spec i src) as [->|Hne].
  - rewrite list_lookup_alter_eq.
    destruct (existsb (Nat.eqb src) (nodes w)), (heap w !! src); reflexivity.
  - rewrite list_lookup_alter_ne by congruence.
    destruct (existsb (Nat.eqb i) (nodes w)), (heap w !! i); reflexivity.
Qed.

Lemma stopAmbient_length w : List.length (heap (stopAmbient w)) = List.length (heap w).
Proof.
  unfold stopAmbient. destruct (source w); [|reflexivity]. cbn [heap].
  rewrite disconnect_all_length. unfold assign. apply length_alter.
Qed.

Lemma stopAmbient_source w : source (stopAmbient w) = None.
Proof. unfold stopAmbient. destruct (source w) eqn:E; [reflexivity | exact E]. Qed.

Lemma quiet_tracked w : quiet w -> tracked w.
Proof.
  intros [Hs [Hsrc Hn]]. unfold tracked. rewrite Hsrc, Hn.
  split; [|split; [|split; [|split]]].
  - intros i n Hi Hf. destruct (Hs i n Hi) as [Hf' _]. congruence.
  - intros i n Hi Hp. destruct (Hs i n Hi) as [_ Hp']. congruence.
  - intros i [].
  - intros i Hi. discriminate.
  - reflexivity.
Qed.

Lemma feeds_clear n : feeds_output (clear n) = false.
Proof. reflexivity. Qed.

Lemma playing_clear n : is_playing (clear n) = is_playing n.
Proof. reflexivity. Qed.

Lemma playing_stop n : is_playing (with_kind do_stop n) = false.
Proof.
  unfold is_playing. simpl. destruct (kind n) as [b l [|] [|]| |]; reflexivity.
Qed.

Lemma feeds_with_kind f n : feeds_output (with_kind f n) = feeds_output n.
Proof. reflexivity. Qed.

Lemma last_In (l : list nat) i : last l = Some i -> In i l.
Proof.
  intros H. apply list_elem_of_In. rewrite last_lookup in H.
  eapply list_elem_of_lookup_2. exact H.
Qed.

(** After [stopAmbient] nothing sounds, every node of the graph it tore
    down has lost its connections, and its source has been stopped. *)
Lemma stopAmbient_quiet w :
  tracked w ->
  quiet (stopAmbient w) /\
  (forall i n, In i (nodes w) -> heap (stopAmbient w) !! i = Some n -> outputs n = []).
Proof.
  intros [Hfeed [Hplay [Hnodes [Hsrc Hnone]]]].
  destruct (source w) as [src|] eqn:Es.
  - split; [split; [|split]|].
    + intros i n Hi. rewrite (stopAmbient_lookup w src i Es) in Hi.
      destruct (heap w !! i) as [n0|] eqn:E0; [|discriminate].
      simpl in Hi. injection Hi as <-.
      assert (Hf : feeds_output n0 = true -> existsb (Nat.eqb i) (nodes w) = true).
      { intros Hf. destruct (Hfeed i n0 E0 Hf) as [_ Hl].
        apply existsb_eqb_In. now apply last_In. }
      assert (Hp : is_playing n0 = true -> Nat.eqb i src = true).
      { intros Hp. specialize (Hplay i n0 E0 Hp). injection Hplay as ->.
        apply Nat.eqb_refl. }
      destruct (existsb (Nat.eqb i) (nodes w)), (Nat.eqb i src);
        rewrite ?feeds_clear, ?playing_clear, ?playing_stop, ?feeds_with_kind.
      * auto.
      * split; [reflexivity|]. destruct (is_playing n0); [discriminate (Hp eq_refl) | reflexivity].
      * split; [|reflexivity]. destruct (feeds_output n0); [discriminate (Hf eq_refl) | reflexivity].
      * split.
        -- destruct (feeds_output n0); [discriminate (Hf eq_refl) | reflexivity].
        -- destruct (is_playing n0); [discriminate (Hp eq_refl) | reflexivity].
    + apply stopAmbient_source.
    + unfold stopAmbient. rewrite Es. reflexivity.
    + intros i n Hin Hi. rewrite (stopAmbient_lookup w src i Es) in Hi.
      apply existsb_eqb_In in Hin. rewrite Hin in Hi.
      destruct (heap w !! i) as [n0|]; [|discriminate].
      simpl in Hi. injection Hi as <-. reflexivity.
  - unfold stopAmbient. rewrite Es. rewrite (Hnone eq_refl).
    split; [split; [|split]|].
    + intros i n Hi. split.
      * destruct (feeds_output n) eqn:Ef; [|reflexivity].
        destruct (Hfeed i n Hi Ef) as [Hc _]. congruence.
      * destruct (is_playing n) eqn:Ep; [|reflexivity].
        specialize (Hplay i n Hi Ep). congruence.
    + exact Es.
    + exact (Hnone eq_refl).
    + intros i n [].
Qed.

Lemma lookup_fresh0 {A} (h l : list A) : (h ++ l) !! List.length h = l !! 0%nat.
Proof. rewrite <- (Nat.add_0_r (List.length h)) at 1. apply lookup_fresh. Qed.

Lemma lookup_app_cases {A} (h l : list A) i n :
  (h ++ l) !! i = Some n ->
  h !! i = Some n \/ exists k, i = (List.length h + k)%nat /\ l !! k = Some n.
Proof.
  intros H. destruct (Nat.lt_ge_cases i (List.length h)) as [Hlt|Hge].
  - left. now rewrite lookup_app_l in H.
  - right. exists (i - List.length h)%nat. split; [lia|].
    now rewrite lookup_app_r in H.
Qed.

(** A build on a quiet world leaves exactly its own graph sounding. *)
Lemma build_tracked dev a v w : quiet w -> tracked (build_graph dev a v w).
Proof.
  intros [Hs [Hsrc Hn]]. rewrite build_graph_shape. unfold tracked.
  cbn [heap source nodes]. rewrite Hn.
  split; [|split; [|split; [|split]]].
  - intros i n Hi Hf. split; [discriminate|].
    apply lookup_app_cases in Hi as [Hi|[k [-> Hk]]].
    + destruct (Hs i n Hi) as [Hf' _]. congruence.
    + destruct a, k as [|[|[|[|k]]]]; simpl in Hk; try discriminate;
        injection Hk as <-; try discriminate Hf; reflexivity.
  - intros i n Hi Hp.
    apply lookup_app_cases in Hi as [Hi|[k [-> Hk]]].
    + destruct (Hs i n Hi) as [_ Hp']. congruence.
    + destruct a, k as [|[|[|[|k]]]]; simpl in Hk; try discriminate;
        injection Hk as <-; try discriminate Hp; now rewrite Nat.add_0_r.
  - intros i Hi. rewrite length_app.
    destruct a; simpl in *; lia.
  - intros i [= <-]. rewrite length_app. destruct a; simpl; lia.
  - discriminate.
Qed.

(** Every operation of the component keeps the world tracked. *)
Create HintDb tracking.

Lemma set_ctx_tracked c w : tracked w -> tracked (set_ctx c w).
Proof. exact (fun H => H). Qed.

Lemma set_pending_tracked p w : tracked w -> tracked (set_pending p w).
Proof. exact (fun H => H). Qed.

Lemma set_ambient_tracked a w : tracked w -> tracked (set_ambient a w).
Proof. exact (fun H => H). Qed.

Lemma set_volume_tracked v w : tracked w -> tracked (set_volume v w).
Proof. exact (fun H => H). Qed.

Lemma stopAmbient_tracked w : tracked w -> tracked (stopAmbient w).
Proof. intros H. apply quiet_tracked. now apply stopAmbient_quiet. Qed.

Lemma startAmbient_resumed_tracked dev a v w :
  tracked w -> tracked (startAmbient_resumed dev a v w).
Proof.
  intros H. unfold startAmbient_resumed. apply build_tracked.
  now apply stopAmbient_quiet.
Qed.

#[local] Hint Resolve set_ctx_tracked set_pending_tracked set_ambient_tracked
  set_volume_tracked stopAmbient_tracked startAmbient_resumed_tracked : tracking.

Lemma startAmbient_tracked dev a v w : tracked w -> tracked (startAmbient dev a v w).
Proof.
  intros H. unfold startAmbient.
  destruct a; [auto with tracking|..];
    destruct (ctx w) as [[|]|]; try destruct (startsSuspended dev);
    auto with tracking.
Qed.

Lemma ambientCleanup_tracked a w : tracked w -> tracked (ambientCleanup a w).
Proof. intros H. destruct a; simpl; auto with tracking. Qed.

#[local] Hint Resolve startAmbient_tracked ambientCleanup_tracked : tracking.

Lemma ambientEffect_tracked dev w : tracked w -> tracked (ambientEffect dev w).
Proof. intros H. unfold ambientEffect. destruct (ambient w); auto with tracking. Qed.

#[local] Hint Resolve ambientEffect_tracked : tracking.

Lemma setAmbient_tracked dev a w : tracked w -> tracked (setAmbient dev a w).
Proof.
  intros H. unfold setAmbient.
  destruct (Ambient_eqb a (ambient w)); auto with tracking.
Qed.

Lemma setVolume_tracked dev v w : tracked w -> tracked (setVolume dev v w).
Proof.
  intros H. unfold setVolume.
  destruct (Qeq_bool v (volume w)); auto with tracking.
Qed.

#[local] Hint Resolve setAmbient_tracked setVolume_tracked : tracking.

Lemma react_tracked dev e w : tracked w -> tracked (react dev e w).
Proof.
  intros H. destruct e; simpl; auto with tracking.
  - destruct (pending w) as [|[a v] rest]; auto with tracking.
  - destruct (pending w) as [|p rest]; auto with tracking.
Qed.

Lemma play_tracked dev es : forall w, tracked w -> tracked (play dev es w).
Proof.
  induction es as [|e es IH]; intros w H; [exact H|].
  simpl. apply IH. now apply react_tracked.
Qed.

Lemma mount_tracked dev a v : tracked (mount dev a v).
Proof.
  unfold mount. apply ambientEffect_tracked. apply quiet_tracked.
  split; [|split]; try reflexivity. intros i n Hi. discriminate.
Qed.

(** Every world the component can be in is tracked. *)
Lemma reachable_tracked dev a v es : tracked (play dev es (mount dev a v)).
Proof. apply play_tracked, mount_tracked. Qed.

Lemma filter_at_most_one (p : nat -> bool) (l : list nat) (x : nat) :
  List.NoDup l -> (forall i, In i l -> p i = true -> i = x) ->
  (List.length (List.filter p l) <= 1)%nat.
Proof.
  intros Hnd Hx.
  assert (Hnd' : List.NoDup (List.filter p l)) by now apply List.NoDup_filter.
  destruct (List.filter p l) as [|a [|b r]] eqn:E; simpl; try lia.
  assert (Ha : In a (List.filter p l)) by (rewrite E; now left).
  assert (Hb : In b (List.filter p l)) by (rewrite E; right; now left).
  apply List.filter_In in Ha as [Ha1 Ha2]. apply List.filter_In in Hb as [Hb1 Hb2].
  rewrite (Hx a Ha1 Ha2), (Hx b Hb1 Hb2) in Hnd'.
  apply List.NoDup_cons_iff in Hnd' as [Hnd' _]. exfalso. apply Hnd'. now left.
Qed.

Lemma tracked_at_most_one w : tracked w -> at_most_one_graph w.
Proof.
  intros [Hfeed [Hplay _]]. split; unfold ids_where.
  - destruct (last (nodes w)) as [x|] eqn:El.
    + apply (filter_at_most_one _ _ x); [apply List.seq_NoDup|].
      intros i _ Hi. destruct (heap w !! i) as [n|] eqn:E; [|discriminate].
      destruct (Hfeed i n E Hi) as [_ H]. congruence.
    + apply (filter_at_most_one _ _ 0%nat); [apply List.seq_NoDup|].
      intros i _ Hi. destruct (heap w !! i) as [n|] eqn:E; [|discriminate].
      destruct (Hfeed i n E Hi) as [_ H]. congruence.
  - destruct (source w) as [x|] eqn:El.
    + apply (filter_at_most_one _ _ x); [apply List.seq_NoDup|].
      intros i _ Hi. destruct (heap w !! i) as [n|] eqn:E; [|discriminate].
      specialize (Hplay i n E Hi). congruence.
    + apply (filter_at_most_one _ _ 0%nat); [apply List.seq_NoDup|].
      intros i _ Hi. destruct (heap w !! i) as [n|] eqn:E; [|discriminate].
      specialize (Hplay i n E Hi). congruence.
Qed.

Lemma silent_no_ids h :
  silent h -> ids_where feeds_output h = [] /\ ids_where is_playing h = [].
Proof.
  intros Hs. unfold ids_where. split.
  - destruct (List.filter _ _) as [|i r] eqn:E; [reflexivity|].
    assert (Hi : In i (List.filter
      (fun i => match h !! i with Some n => feeds_output n | None => false end)
      (seq 0 (List.length h)))) by (rewrite E; now left).
    apply List.filter_In in Hi as [_ Hi].
    destruct (h !! i) as [n|] eqn:En; [|discriminate].
    destruct (Hs i n En) as [Hf _]. congruence.
  - destruct (List.filter _ _) as [|i r] eqn:E; [reflexivity|].
    assert (Hi : In i (List.filter
      (fun i => match h !! i with Some n => is_playing n | None => false end)
      (seq 0 (List.length h)))) by (rewrite E; now left).
    apply List.filter_In in Hi as [_ Hi].
    destruct (h !! i) as [n|] eqn:En; [|discriminate].
    destruct (Hs i n En) as [_ Hf]. congruence.
Qed.


(** *** The chain a build makes *)

Lemma noise_length dev k : List.length (noise dev k) = (sampleRate dev * 2)%nat.
Proof. unfold noise. now rewrite length_map, length_seq. Qed.

Lemma noise_nth dev k j :
  (j < sampleRate dev * 2)%nat ->
  nth_error (noise dev k) j = Some (random dev (k + j) * 2 - 1).
Proof.
  intros Hj. unfold noise. rewrite nth_error_map, nth_error_seq.
  destruct (Nat.ltb_spec j (sampleRate dev * 2)); [reflexivity | lia].
Qed.


Lemma stopAmbient_draws w : draws (stopAmbient w) = draws w.
Proof. unfold stopAmbient. destruct (source w); reflexivity. Qed.

Lemma built_chain dev a v w :
  a <> Off ->
  signal_chain (build_graph dev a v w) =
    Some (NoiseSource (noise dev (draws w)) true ::
          policy_filters a ++ [GainStage (v / 100)]).
Proof.
  intros Ha. rewrite build_graph_shape. unfold signal_chain. cbn [source heap].
  rewrite length_app. set (h := heap w).
  destruct a; [congruence| | |]; cbn [built_nodes List.length];
    rewrite (Nat.add_comm (List.length h)); cbn [Nat.add walk];
    repeat (rewrite ?lookup_fresh0, ?lookup_fresh; cbn); reflexivity.
Qed.

Section UnitDraws.

(** [Math.random] returns a number of [0, 1). *)
Variable dev : Device.
Hypothesis random_unit : forall i, 0 <= random dev i /\ random dev i < 1.

Lemma noise_range k : Forall (fun x => -1 <= x /\ x <= 1) (noise dev k).
Proof.
  unfold noise. apply List.Forall_forall. intros x Hx.
  apply in_map_iff in Hx as [i [<- _]]. destruct (random_unit i). lra.
Qed.

(** C9. A build for a profile other than Off leaves the chain of the policy
    table playing: the looping noise source, the profile's filters in order,
    then the gain stage at [volume / 100], into the output device. The
    source's buffer has [2 * sampleRate] samples, the [j]-th being
    [Math.random() * 2 - 1] for a draw of its own, so within [-1, 1] when
    the draws are within [0, 1); and the draws of one build are never used by
    the next. *)
Theorem chain_matches_policy (a : Ambient) (v : Q) (w : World) :
  a <> Off ->
  let w' := startAmbient_resumed dev a v w in
  let buffer := noise dev (draws w) in
  signal_chain w' =
    Some (NoiseSource buffer true :: policy_filters a ++ [GainStage (v / 100)]) /\
  (exists src n, source w' = Some src /\ heap w' !! src = Some n /\
                 is_playing n = true) /\
  List.length buffer = (sampleRate dev * 2)%nat /\
  (forall j, (j < sampleRate dev * 2)%nat ->
     nth_error buffer j = Some (random dev (draws w + j) * 2 - 1)) /\
  Forall (fun x => -1 <= x /\ x <= 1) buffer /\
  draws w' = (draws w + sampleRate dev * 2)%nat.
Proof.
  intros Ha w' buffer. subst w' buffer. unfold startAmbient_resumed.
  rewrite <- (stopAmbient_draws w).
  split; [now apply built_chain|]. split.
  - rewrite build_graph_shape. cbn [source heap].
    destruct a; [congruence|..];
      (eexists _, _; split; [reflexivity|]; split;
       [rewrite lookup_fresh0; reflexivity | reflexivity]).
  - split; [apply noise_length|]. split; [apply noise_nth|].
    split; [apply noise_range|].
    rewrite build_graph_shape. reflexivity.
Qed.

End UnitDraws.

Lemma chain_matches_policy_witness :
  let dev := {| sampleRate := 3; startsSuspended := false;
                random := fun i => Z.of_nat (i mod 8) # 8 |} in
  signal_chain (mount dev Rain 40) =
    Some [NoiseSource (noise dev 0) true; HighPass 800; LowPass 7000;
          GainStage (40 / 100)] /\
  signal_chain (mount dev Forest 40) =
    Some [NoiseSource (noise dev 0) true; LowPass 1200;
          PeakingBand 300 (9 # 10) 2; GainStage (40 / 100)] /\
  signal_chain (mount dev White 40) =
    Some [NoiseSource (noise dev 0) true; GainStage (40 / 100)].
Proof.
  intros dev.
  assert (Hr : forall i, 0 <= random dev i /\ random dev i < 1).
  { intros i. simpl. unfold Qle, Qlt. simpl.
    pose proof (Nat.mod_upper_bound i 8). lia. }
  split; [|split].
  - exact (proj1 (chain_matches_policy dev Hr Rain 40
             (set_ctx (Some running)
                {| ambient := Rain; volume := 40; ctx := None; source := None;
                   nodes := []; heap := []; draws := 0; pending := [] |})
             ltac:(discriminate))).
  - exact (proj1 (chain_matches_policy dev Hr Forest 40
             (set_ctx (Some running)
                {| ambient := Forest; volume := 40; ctx := None; source := None;
                   nodes := []; heap := []; draws := 0; pending := [] |})
             ltac:(discriminate))).
  - exact (proj1 (chain_matches_policy dev Hr White 40
             (set_ctx (Some running)
                {| ambient := White; volume := 40; ctx := None; source := None;
                   nodes := []; heap := []; draws := 0; pending := [] |})
             ltac:(discriminate))).
Defined.


(** *** One graph at a time *)

Lemma stopAmbient_set_ctx c w : stopAmbient (set_ctx c w) = set_ctx c (stopAmbient w).
Proof.
  unfold stopAmbient, set_ctx. cbn [source].
  destruct (source w) eqn:E; cbn; rewrite ?E; reflexivity.
Qed.

Lemma stopAmbient_set_ambient a w :
  stopAmbient (set_ambient a w) = set_ambient a (stopAmbient w).
Proof.
  unfold stopAmbient, set_ambient. cbn [source].
  destruct (source w) eqn:E; cbn; rewrite ?E; reflexivity.
Qed.

Lemma stopAmbient_set_volume v w :
  stopAmbient (set_volume v w) = set_volume v (stopAmbient w).
Proof.
  unfold stopAmbient, set_volume. cbn [source].
  destruct (source w) eqn:E; cbn; rewrite ?E; reflexivity.
Qed.

Lemma stopAmbient_idem w : stopAmbient (stopAmbient w) = stopAmbient w.
Proof.
  unfold stopAmbient at 1. now rewrite stopAmbient_source.
Qed.

Lemma stopAmbient_cleanup a w :
  stopAmbient (ambientCleanup a w) = stopAmbient w.
Proof. destruct a; simpl; auto using stopAmbient_idem. Qed.

Lemma startAmbient_ready dev a v w :
  a <> Off -> ctx_ready dev w ->
  startAmbient dev a v w =
    build_graph dev a v (set_ctx (Some running) (stopAmbient w)).
Proof.
  intros Ha Hc. unfold startAmbient.
  assert (E : match ctx w with
              | Some c => c
              | None => if startsSuspended dev then suspended else running
              end = running).
  { destruct Hc as [-> | [-> ->]]; reflexivity. }
  rewrite E. unfold startAmbient_resumed. rewrite stopAmbient_set_ctx.
  destruct a; [congruence|..]; reflexivity.
Qed.

Lemma Ambient_eqb_refl a : Ambient_eqb a a = true.
Proof. destruct a; reflexivity. Qed.

Lemma Ambient_eqb_neq a b : a <> b -> Ambient_eqb a b = false.
Proof. destruct a, b; simpl; congruence. Qed.

(** Changing the profile or the volume, with the context ready, is a build
    on the world [stopAmbient] leaves. *)
Lemma setAmbient_rebuild dev a w :
  a <> ambient w -> a <> Off -> ctx_ready dev w ->
  setAmbient dev a w =
    build_graph dev a (volume w)
      (set_ctx (Some running) (set_ambient a (stopAmbient w))).
Proof.
  intros Hne Ha Hc. unfold setAmbient. rewrite (Ambient_eqb_neq _ _ Hne).
  unfold ambientEffect. cbn [ambient set_ambient volume].
  replace (match a with Off => stopAmbient _ | _ => _ end)
    with (startAmbient dev a (volume (ambientCleanup (ambient w) w))
            (set_ambient a (ambientCleanup (ambient w) w)))
    by (destruct a; [congruence|..]; reflexivity).
  rewrite startAmbient_ready; [| exact Ha |].
  - rewrite stopAmbient_set_ambient, stopAmbient_cleanup.
    f_equal. destruct (ambient w); simpl; [reflexivity|..];
      unfold stopAmbient; destruct (source w); reflexivity.
  - destruct (ambient w); simpl; [exact Hc|..];
      unfold ctx_ready, stopAmbient; destruct (source w); exact Hc.
Qed.

Lemma setVolume_rebuild dev v w :
  Qeq_bool v (volume w) = false -> ambient w <> Off -> ctx_ready dev w ->
  setVolume dev v w =
    build_graph dev (ambient w) v
      (set_ctx (Some running) (set_volume v (stopAmbient w))).
Proof.
  intros Hne Ha Hc. unfold setVolume. rewrite Hne.
  unfold ambientEffect. cbn [ambient set_volume volume].
  assert (Ea : ambient (ambientCleanup (ambient w) w) = ambient w).
  { destruct (ambient w) eqn:E; simpl; [exact E|..];
      unfold stopAmbient; destruct (source w); exact E. }
  rewrite Ea.
  replace (match ambient w with Off => stopAmbient _ | _ => _ end)
    with (startAmbient dev (ambient w) v
            (set_volume v (ambientCleanup (ambient w) w)))
    by (destruct (ambient w); [congruence|..]; reflexivity).
  rewrite startAmbient_ready; [| exact Ha |].
  - now rewrite stopAmbient_set_volume, stopAmbient_cleanup.
  - destruct (ambient w); simpl; [exact Hc|..];
      unfold ctx_ready, stopAmbient; destruct (source w); exact Hc.
Qed.

(** C8. In every world the component can reach, at most one node feeds the
    output device and at most one source plays. Every build (the part of
    [startAmbient] after the wait) starts from the world [stopAmbient]
    leaves, in which no node feeds the output, no source plays and every node
    of the previous graph has lost its connections; switching to another
    profile with the context ready is such a build. Setting the profile and
    the volume to the values they have leaves the world, and with it the
    graph, as it is. *)
Theorem one_graph_at_a_time (dev : Device) (a0 : Ambient) (v0 : Q) (es : list Event) :
  let w := play dev es (mount dev a0 v0) in
  at_most_one_graph w /\
  (forall a v,
     startAmbient_resumed dev a v w = build_graph dev a v (stopAmbient w) /\
     ids_where feeds_output (heap (stopAmbient w)) = [] /\
     ids_where is_playing (heap (stopAmbient w)) = [] /\
     (forall i n, In i (nodes w) -> heap (stopAmbient w) !! i = Some n ->
        outputs n = [])) /\
  (forall a, a <> ambient w -> a <> Off -> ctx_ready dev w ->
     exists w0,
       heap w0 = heap (stopAmbient w) /\
       setAmbient dev a w = build_graph dev a (volume w) w0 /\
       at_most_one_graph (setAmbient dev a w)) /\
  setAmbient dev (ambient w) w = w /\
  setVolume dev (volume w) w = w.
Proof.
  intros w. assert (Ht : tracked w) by apply reachable_tracked.
  destruct (stopAmbient_quiet w Ht) as [[Hs _] Hout].
  destruct (silent_no_ids _ Hs) as [Hf Hp].
  split; [now apply tracked_at_most_one|]. split; [|split; [|split]].
  - intros a v. repeat split; assumption.
  - intros a Hne Ha Hc. eexists. split; [|split].
    2: now apply setAmbient_rebuild.
    + reflexivity.
    + apply tracked_at_most_one. now apply setAmbient_tracked.
  - unfold setAmbient. now rewrite Ambient_eqb_refl.
  - unfold setVolume.
    replace (Qeq_bool (volume w) (volume w)) with true; [reflexivity|].
    symmetry. apply Qeq_bool_iff. reflexivity.
Qed.

Lemma one_graph_at_a_time_witness :
  let dev := {| sampleRate := 2; startsSuspended := false;
                random := fun i => Z.of_nat (i mod 4) # 4 |} in
  let w := play dev [SetVolume 55] (mount dev Rain 40) in
  exists w0,
    heap w0 = heap (stopAmbient w) /\
    setAmbient dev Forest w = build_graph dev Forest (volume w) w0 /\
    at_most_one_graph (setAmbient dev Forest w).
Proof.
  intros dev w.
  apply (proj1 (proj2 (proj2 (one_graph_at_a_time dev Rain 40 [SetVolume 55])))).
  - discriminate.
  - discriminate.
  - left. reflexivity.
Defined.


(** *** Changing the volume *)

(** [stopAmbient] keeps every node's kind, up to the stop of the source. *)
Lemma stopAmbient_kind w i n :
  heap w !! i = Some n ->
  exists n', heap (stopAmbient w) !! i = Some n' /\
             (kind n' = kind n \/ kind n' = do_stop (kind n)).
Proof.
  intros Hi. destruct (source w) as [src|] eqn:Es.
  - rewrite (stopAmbient_lookup w src i Es), Hi. simpl. eexists. split; [reflexivity|].
    destruct (existsb (Nat.eqb i) (nodes w)), (Nat.eqb i src); simpl; auto.
  - unfold stopAmbient. rewrite Es. eauto.
Qed.

(** C3, as stated, fails: with the white-noise graph active at volume 40,
    setting the volume to 50 replaces both nodes of the graph; the old gain
    node keeps its gain of 40/100 and is disconnected. *)
Lemma setVolume_in_place_counterexample :
  let dev := {| sampleRate := 2; startsSuspended := false;
                random := fun i => Z.of_nat (i mod 4) # 4 |} in
  let w := mount dev White 40 in
  let w' := setVolume dev 50 w in
  source w = Some 0%nat /\ nodes w = [0; 1]%nat /\
  nodes w' <> nodes w /\ source w' <> source w /\
  heap w' !! 1%nat = Some {| kind := GainNode (40 / 100); outputs := [] |}.
Proof.
  intros dev w w'. repeat split; try reflexivity.
  - vm_compute. discriminate.
  - vm_compute. discriminate.
Qed.

(** C3, amended. In every world the component can reach, with a profile
    other than Off and the context ready, setting the volume to a different
    value rebuilds the graph: the new source and every node of the new graph
    are nodes that did not exist before, every node of the previous graph is
    left without connections and not playing, a gain node of the previous
    graph keeps the gain it had, and the chain that plays afterwards is the
    profile's chain over a fresh noise buffer with the gain stage at the new
    [volume / 100]. Setting the volume to the value it has changes nothing. *)
Theorem setVolume_rebuilds (dev : Device) (a0 : Ambient) (v0 : Q)
  (es : list Event) (v : Q) :
  let w := play dev es (mount dev a0 v0) in
  ambient w <> Off -> ctx_ready dev w -> Qeq_bool v (volume w) = false ->
  let w' := setVolume dev v w in
  let L := List.length (heap w) in
  source w' = Some L /\
  (forall i, In i (nodes w') -> (L <= i)%nat) /\
  (forall i, In i (nodes w) -> (i < L)%nat) /\
  (forall i n, In i (nodes w) -> heap w' !! i = Some n ->
     outputs n = [] /\ is_playing n = false) /\
  (forall i n g, heap w !! i = Some n -> kind n = GainNode g ->
     exists n', heap w' !! i = Some n' /\ kind n' = GainNode g) /\
  signal_chain w' =
    Some (NoiseSource (noise dev (draws w)) true ::
          policy_filters (ambient w) ++ [GainStage (v / 100)]) /\
  at_most_one_graph w' /\
  setVolume dev (volume w) w = w.
Proof.
  intros w Ha Hc Hv w' L.
  assert (Ht : tracked w) by apply reachable_tracked.
  destruct (stopAmbient_quiet w Ht) as [[Hs _] Hout].
  assert (Hlen : List.length (heap (stopAmbient w)) = L) by apply stopAmbient_length.
  pose proof (proj1 (proj2 (proj2 Ht))) as Hnodes.
  assert (Hsame : setVolume dev (volume w) w = w).
  { unfold setVolume.
    replace (Qeq_bool (volume w) (volume w)) with true; [reflexivity|].
    symmetry. apply Qeq_bool_iff. reflexivity. }
  subst w'. rewrite (setVolume_rebuild dev v w Hv Ha Hc).
  split; [|split; [|split; [|split; [|split; [|split; [|split; [|exact Hsame]]]]]]].
  - rewrite build_graph_shape. cbn [source heap set_ctx set_volume]. now rewrite Hlen.
  - rewrite build_graph_shape. cbn [nodes heap set_ctx set_volume]. rewrite Hlen.
    intros i Hi. destruct (ambient w); [congruence|..]; simpl in Hi;
      intuition lia.
  - exact Hnodes.
  - intros i n Hin Hi. rewrite build_graph_shape in Hi.
    cbn [heap set_ctx set_volume] in Hi.
    rewrite lookup_app_l in Hi
      by (rewrite Hlen; now apply Hnodes).
    split; [now apply (Hout i n)|]. now apply (Hs i n).
  - intros i n g Hi Hk. destruct (stopAmbient_kind w i n Hi) as [n' [Hi' Hk']].
    exists n'. split.
    + rewrite build_graph_shape. cbn [heap set_ctx set_volume].
      rewrite lookup_app_l; [exact Hi'|]. now apply lookup_lt_Some in Hi'.
    + rewrite Hk in Hk'. destruct Hk' as [Hk'|Hk']; exact Hk'.
  - rewrite built_chain by exact Ha. cbn [draws set_ctx set_volume].
    now rewrite stopAmbient_draws.
  - rewrite <- (setVolume_rebuild dev v w Hv Ha Hc).
    apply tracked_at_most_one. now apply setVolume_tracked.
Qed.

Lemma setVolume_rebuilds_witness :
  let dev := {| sampleRate := 2; startsSuspended := false;
                random := fun i => Z.of_nat (i mod 4) # 4 |} in
  let w := play dev [SetAmbient Rain] (mount dev Off 40) in
  source (setVolume dev 50 w) = Some 4%nat /\
  signal_chain (setVolume dev 50 w) =
    Some [NoiseSource (noise dev 4) true; HighPass 800; LowPass 7000;
          GainStage (50 / 100)].
Proof.
  intros dev w.
  destruct (setVolume_rebuilds dev Off 40 [SetAmbient Rain] 50)
    as [H1 [_ [_ [_ [_ [H2 _]]]]]].
  - discriminate.
  - left. reflexivity.
  - reflexivity.
  - split; [exact H1 | exact H2].
Defined.

End AudioFacts.

(** ** The displayed time and the progress ring *)

Module ViewFacts.

Import Persist View JSFacts.

Lemma decimal_fuel : forall f1 f2 n,
  (n < f1)%nat -> (n < f2)%nat -> decimal f1 n = decimal f2 n.
Proof.
  induction f1 as [|f1 IH]; intros f2 n H1 H2; [lia|].
  destruct f2 as [|f2]; [lia|]. cbn [decimal].
  destruct (Nat.ltb_spec n 10) as [Hlt|Hge]; [reflexivity|].
  f_equal. apply IH.
  - assert (n / 10 < n)%nat by (apply Nat.div_lt; lia). lia.
  - assert (n / 10 < n)%nat by (apply Nat.div_lt; lia). lia.
Qed.

(** The digits of a number: one digit below ten, otherwise the digits of
    the tenth followed by the last digit. *)
Lemma String_of_nat_step n :
  String_of_nat n =
    if (n <? 10)%nat then String (digit n) EmptyString
    else (String_of_nat (n / 10) ++ String (digit (n mod 10)) EmptyString)%string.
Proof.
  unfold String_of_nat at 1. cbn [decimal].
  destruct (Nat.ltb_spec n 10) as [Hlt|Hge]; [reflexivity|].
  f_equal. apply decimal_fuel.
  - apply Nat.div_lt; lia.
  - lia.
Qed.

Lemma digit_value n : (n < 10)%nat -> (nat_of_ascii (digit n) - 48 = n)%nat.
Proof.
  intros H. unfold digit. rewrite nat_ascii_embedding by lia. lia.
Qed.

Lemma digit_not_colon n : (n < 10)%nat -> Ascii.eqb (digit n) ":" = false.
Proof.
  intros H. do 10 (destruct n as [|n]; [reflexivity|]). lia.
Qed.

Lemma value_from_app s1 : forall acc s2,
  value_from acc (s1 ++ s2)%string = value_from (value_from acc s1) s2.
Proof.
  induction s1 as [|c s1 IH]; intros acc s2; cbn [String.append value_from];
    [reflexivity | apply IH].
Qed.

Lemma value_String_of_nat n : value_from 0 (String_of_nat n) = n.
Proof.
  induction n as [n IH] using lt_wf_ind. rewrite String_of_nat_step.
  destruct (Nat.ltb_spec n 10) as [Hlt|Hge].
  - cbn [value_from]. rewrite digit_value by exact Hlt. lia.
  - rewrite value_from_app, IH by (apply Nat.div_lt; lia). cbn [value_from].
    rewrite digit_value by (apply Nat.mod_upper_bound; lia).
    pose proof (Nat.div_mod_eq n 10). lia.
Qed.

Lemma value_zeros k s : value_from 0 (zeros k ++ s)%string = value_from 0 s.
Proof. induction k as [|k IH]; simpl; [reflexivity | exact IH]. Qed.

Lemma no_colon_app s1 s2 :
  no_colon (s1 ++ s2)%string = no_colon s1 && no_colon s2.
Proof.
  induction s1 as [|c s1 IH]; cbn [no_colon String.append andb]; [reflexivity|].
  rewrite IH. now rewrite andb_assoc.
Qed.

Lemma no_colon_String_of_nat n : no_colon (String_of_nat n) = true.
Proof.
  induction n as [n IH] using lt_wf_ind. rewrite String_of_nat_step.
  destruct (Nat.ltb_spec n 10) as [Hlt|Hge].
  - cbn [no_colon]. now rewrite digit_not_colon.
  - rewrite no_colon_app, IH by (apply Nat.div_lt; lia). cbn [no_colon andb].
    now rewrite digit_not_colon by (apply Nat.mod_upper_bound; lia).
Qed.

Lemma no_colon_zeros k : no_colon (zeros k) = true.
Proof. induction k as [|k IH]; simpl; [reflexivity | exact IH]. Qed.

Lemma before_colon_app s r :
  no_colon s = true -> before_colon (s ++ String ":" r)%string = s.
Proof.
  induction s as [|c s IH]; cbn [no_colon String.append before_colon];
    [intros _; now rewrite Ascii.eqb_refl|].
  intros H. apply andb_prop in H as [Hc Hs].
  apply negb_true_iff in Hc. rewrite Hc. now rewrite IH.
Qed.

Lemma after_colon_app s r :
  no_colon s = true -> after_colon (s ++ String ":" r)%string = r.
Proof.
  induction s as [|c s IH]; cbn [no_colon String.append after_colon];
    [intros _; now rewrite Ascii.eqb_refl|].
  intros H. apply andb_prop in H as [Hc Hs].
  apply negb_true_iff in Hc. rewrite Hc. now apply IH.
Qed.

Lemma String_of_Z_nonneg z : (0 <= z)%Z -> String_of_Z z = String_of_nat (Z.to_nat z).
Proof.
  intros H. unfold String_of_Z. destruct (Z.ltb_spec z 0); [lia | reflexivity].
Qed.

(** [formatTime] in terms of the natural number of seconds it shows. *)
Lemma formatTime_nat t :
  let n := Z.to_nat (Z.max t 0) in
  formatTime t =
    (padStart 2 (String_of_nat (n / 60)) ++ ":" ++
     padStart 2 (String_of_nat (n mod 60)))%string.
Proof.
  intros n. unfold formatTime.
  assert (H0 : (0 <= Z.max t 0)%Z) by lia.
  rewrite !String_of_Z_nonneg
    by (first [apply Z.div_pos; lia | apply Z.mod_pos_bound; lia]).
  subst n. rewrite Z2Nat.inj_div, Z2Nat.inj_mod by lia. reflexivity.
Qed.

(** The displayed text determines the number of seconds. *)
Lemma seconds_shown_formatTime t :
  seconds_shown (formatTime t) = Z.to_nat (Z.max t 0).
Proof.
  rewrite formatTime_nat. cbv zeta. set (n := Z.to_nat (Z.max t 0)).
  unfold seconds_shown.
  assert (Hm : no_colon (padStart 2 (String_of_nat (n / 60))) = true).
  { unfold padStart. now rewrite no_colon_app, no_colon_zeros, no_colon_String_of_nat. }
  change (":" ++ ?x)%string with (String ":" x).
  rewrite before_colon_app, after_colon_app by exact Hm.
  unfold padStart. rewrite !value_zeros, !value_String_of_nat.
  pose proof (Nat.div_mod_eq n 60). lia.
Qed.


(** X1. Two different non-negative numbers of seconds are never displayed
    as the same text, and every negative number is displayed as zero is. *)
Theorem formatTime_distinct (t1 t2 : Z) :
  ((0 <= t1)%Z -> (0 <= t2)%Z -> t1 <> t2 -> formatTime t1 <> formatTime t2) /\
  ((t1 <= 0)%Z -> formatTime t1 = formatTime 0).
Proof.
  split.
  - intros H1 H2 Hne Heq. apply (f_equal seconds_shown) in Heq.
    rewrite !seconds_shown_formatTime in Heq. lia.
  - intros H. unfold formatTime. now replace (Z.max t1 0) with (Z.max 0 0) by lia.
Qed.

Lemma formatTime_distinct_witness :
  formatTime 90 <> formatTime 91 /\ formatTime (-4) = formatTime 0.
Proof.
  split.
  - apply (proj1 (formatTime_distinct 90 91)); lia.
  - apply (proj2 (formatTime_distinct (-4) 0)). lia.
Defined.

Lemma string_length_append s1 s2 :
  String.length (s1 ++ s2)%string = (String.length s1 + String.length s2)%nat.
Proof.
  induction s1 as [|c s1 IH]; cbn [String.append String.length]; [reflexivity|].
  now rewrite IH.
Qed.

Lemma padStart_two_digits n :
  (n < 100)%nat ->
  padStart 2 (String_of_nat n) =
    String (digit (n / 10)) (String (digit (n mod 10)) EmptyString).
Proof.
  intros H. rewrite String_of_nat_step.
  destruct (Nat.ltb_spec n 10) as [Hlt|Hge].
  - rewrite Nat.div_small, Nat.mod_small by lia. reflexivity.
  - rewrite String_of_nat_step.
    assert (Hd : (n / 10 < 10)%nat) by (apply Nat.Div0.div_lt_upper_bound; lia).
    destruct (Nat.ltb_spec (n / 10) 10); [reflexivity | lia].
Qed.

Lemma String_of_nat_length n :
  (1 <= String.length (String_of_nat n))%nat /\
  ((100 <= n)%nat -> (3 <= String.length (String_of_nat n))%nat).
Proof.
  assert (H1 : forall m, (1 <= String.length (String_of_nat m))%nat).
  { intros m. rewrite String_of_nat_step.
    destruct (m <? 10)%nat; [cbn [String.length]; lia|].
    rewrite string_length_append. cbn [String.length]. lia. }
  assert (H2 : forall m, (10 <= m)%nat -> (2 <= String.length (String_of_nat m))%nat).
  { intros m Hm. rewrite String_of_nat_step.
    destruct (Nat.ltb_spec m 10); [lia|].
    rewrite string_length_append. cbn [String.length]. specialize (H1 (m / 10)%nat). lia. }
  split; [apply H1|]. intros Hn. rewrite String_of_nat_step.
  destruct (Nat.ltb_spec n 10); [lia|].
  rewrite string_length_append. cbn [String.length].
  assert (10 <= n / 10)%nat by (apply Nat.div_le_lower_bound; lia).
  specialize (H2 (n / 10)%nat). lia.
Qed.

(** X2. A countdown from 0 up to 5999 seconds is displayed as two minute
    digits, a colon and two second digits; a countdown of zero or less as
    "00:00"; from 6000 seconds on (a focus duration of 100 minutes or more)
    the text is longer than five characters. *)
Theorem formatTime_mm_ss (t : Z) :
  ((0 <= t < 6000)%Z ->
     let n := Z.to_nat t in
     formatTime t =
       String (digit (n / 600)) (String (digit (n / 60 mod 10)) (String ":"
         (String (digit (n mod 60 / 10)) (String (digit (n mod 10)) EmptyString))))) /\
  ((t <= 0)%Z -> formatTime t = "00:00") /\
  ((6000 <= t)%Z -> (6 <= String.length (formatTime t))%nat).
Proof.
  split; [|split].
  - intros H n. rewrite formatTime_nat. cbv zeta.
    replace (Z.to_nat (Z.max t 0)) with n by (subst n; lia).
    assert (Hn : (n < 60 * 100)%nat) by (subst n; lia).
    rewrite !padStart_two_digits.
    + rewrite Nat.Div0.div_div. change (60 * 10)%nat with 600%nat.
      replace ((n mod 60) mod 10)%nat with (n mod 10)%nat; [reflexivity|].
      pose proof (Nat.div_mod_eq n 60). pose proof (Nat.div_mod_eq n 10).
      pose proof (Nat.div_mod_eq (n mod 60) 10).
      pose proof (Nat.mod_upper_bound n 60). pose proof (Nat.mod_upper_bound n 10).
      pose proof (Nat.mod_upper_bound (n mod 60) 10). lia.
    + pose proof (Nat.mod_upper_bound n 60). lia.
    + apply Nat.Div0.div_lt_upper_bound. lia.
  - intros H. unfold formatTime. now replace (Z.max t 0) with 0%Z by lia.
  - intros H. rewrite formatTime_nat. cbv zeta.
    set (n := Z.to_nat (Z.max t 0)).
    assert (Hn : (60 * 100 <= n)%nat) by (subst n; lia).
    rewrite !string_length_append. unfold padStart.
    rewrite !string_length_append.
    destruct (String_of_nat_length (n / 60)) as [_ Hm].
    destruct (String_of_nat_length (n mod 60)) as [Hs _].
    assert (100 <= n / 60)%nat by (apply Nat.div_le_lower_bound; lia).
    specialize (Hm H0). cbn [String.length].
    assert (Hz : forall k, String.length (zeros k) = k)
      by (induction k; cbn [zeros String.length]; congruence).
    rewrite !Hz. lia.
Qed.

Lemma formatTime_mm_ss_witness :
  formatTime 1500 = "25:00" /\ formatTime (-1) = "00:00" /\
  (6 <= String.length (formatTime 7200))%nat.
Proof.
  destruct (formatTime_mm_ss 1500) as [H1 _].
  destruct (formatTime_mm_ss (-1)) as [_ [H2 _]].
  destruct (formatTime_mm_ss 7200) as [_ [_ H3]].
  split; [apply H1; lia|]. split; [apply H2; lia | apply H3; lia].
Defined.


(** *** [progress] *)

Lemma Qeq_bool_pos q : 0 < q -> Qeq_bool q 0 = false.
Proof.
  intros H. destruct (Qeq_bool q 0) eqn:E; [|reflexivity].
  apply Qeq_bool_iff in E. lra.
Qed.

(** X3. The progress shown is always within [0, 1], whatever the state: it
    is 0 when the cycle has no length, and 0 as well when the countdown is
    above the cycle's duration (as after shortening the running phase). *)
Theorem progress_range (s : Timer.AppState) :
  (0 <= progress s /\ progress s <= 1) /\
  (Timer.cycleDuration s == 0 -> progress s = 0) /\
  (0 < Timer.cycleDuration s -> Timer.cycleDuration s < Timer.secondsLeft s ->
     progress s = 0).
Proof.
  unfold progress. split; [|split].
  - destruct (Qeq_bool (Timer.cycleDuration s) 0); [lra|].
    apply clamp_range. lra.
  - intros H. apply Qeq_bool_iff in H. now rewrite H.
  - intros Hpos Hlt. rewrite (Qeq_bool_pos _ Hpos).
    assert (Hneg : (Timer.cycleDuration s - Timer.secondsLeft s)
                     / Timer.cycleDuration s < 0).
    { apply Qlt_shift_div_r; [exact Hpos | lra]. }
    unfold Math_max.
    destruct (Qle_bool 0 _) eqn:E; [apply Qle_bool_iff in E; lra|].
    reflexivity.
Qed.

Lemma progress_range_witness :
  let s := Timer.run [Timer.ToggleRunning; Timer.SetFocusDuration (Num 5)]
             (Timer.boot Missing) in
  progress s = 0.
Proof.
  intros s. apply (proj2 (proj2 (progress_range s))); reflexivity.
Defined.



End ViewFacts.

(** ** More on the persisted snapshot *)

Module PersistMore.

Import Persist JSFacts PersistFacts Lifecycle.

(** A valid state with at most 100000 sessions is read back as saved. *)
Lemma saved_loads_back (s : Snapshot) :
  valid_state s -> completedSessions s <= 100000 -> getInitialState (saved s) = s.
Proof.
  intros [[Hf1 Hf2] [Hb1 Hb2] [Hs1 Hs2] Hc [Hv1 Hv2] Ha Ht] Hcap.
  destruct s as [f b m sl c ts a v]. simpl in *.
  unfold saved, getInitialState, stateToStore. simpl Persist.focusMinutes.
  simpl Persist.breakMinutes. simpl Persist.mode. simpl Persist.secondsLeft.
  simpl Persist.completedSessions. simpl Persist.tasks. simpl Persist.ambient.
  simpl Persist.volume.
  match goal with |- context [sanitize (JObj ?l)] =>
    destruct (sanitize_object l) as [ts' [Ets [_ E]]]; rewrite E; clear E
  end.
  change (safeTasks_of (JArr ts) = Some ts') in Ets.
  rewrite (safeTasks_wellformed ts Ht) in Ets. injection Ets as <-.
  match goal with |- context [field ?l "focusMinutes"] =>
    change (field l "focusMinutes") with (JNum (Num f));
    change (field l "breakMinutes") with (JNum (Num b));
    change (field l "mode") with (JStr (mode_string m));
    change (field l "secondsLeft") with (JNum (Num sl));
    change (field l "completedSessions") with (JNum (Num c));
    change (field l "ambient") with (JStr a);
    change (field l "volume") with (JNum (Num v))
  end.
  rewrite mode_string_safe, (includes_member a ambientValues Ha).
  rewrite (clampNumber_keep f 5 120 25 Hf1 Hf2).
  rewrite (clampNumber_keep b 1 45 5 Hb1 Hb2).
  rewrite (clampNumber_keep c 0 100000 0 Hc Hcap).
  rewrite (clampNumber_keep v 0 100 40 Hv1 Hv2).
  rewrite (clampNumber_keep sl 0 _ _ Hs1 Hs2).
  reflexivity.
Qed.



Lemma task_ok_keepable t : task_ok t = Some (keepable t).
Proof.
  destruct t as [| |b|n|s|l|fs]; try reflexivity.
  - destruct b; reflexivity.
  - destruct n as [|q]; [reflexivity|]. unfold task_ok. simpl.
    destruct (Qeq_bool q 0); reflexivity.
  - unfold task_ok. simpl. destruct (String.eqb s EmptyString); reflexivity.
  - unfold task_ok. simpl. fold (field fs "id") (field fs "title").
    destruct (typeof_is_string (field fs "id")); reflexivity.
Qed.

Lemma filter_tasks_filter l : filter_tasks l = Some (List.filter keepable l).
Proof.
  induction l as [|t l IH]; [reflexivity|].
  simpl. rewrite task_ok_keepable, IH. simpl.
  destruct (keepable t); reflexivity.
Qed.

Lemma task_clean_coerce t : keepable t = true -> task_clean t = Some (coerce_done t).
Proof. destruct t as [| |b|n|s|l|fs]; try discriminate. reflexivity. Qed.

Lemma map_tasks_coerce l :
  Forall (fun t => keepable t = true) l -> map_tasks l = Some (map coerce_done l).
Proof.
  induction 1 as [|t l Ht _ IH]; [reflexivity|].
  simpl. now rewrite (task_clean_coerce t Ht), IH.
Qed.

(** X6. Loading a stored task array never fails, whatever its entries: the
    loaded list is made of the entries that are objects with a string [id]
    and a string [title], in their stored order, each with [done] coerced to
    a boolean and every other property as stored; a stored value that is not
    an array loads as no tasks. *)
Theorem loaded_tasks (ptasks : JsVal) :
  match ptasks with
  | JArr items =>
      safeTasks_of ptasks = Some (map coerce_done (List.filter keepable items)) /\
      forall t k, In t (List.filter keepable items) -> k <> "done" ->
        field (own_fields (coerce_done t)) k = field (own_fields t) k
  | _ => safeTasks_of ptasks = Some []
  end.
Proof.
  destruct ptasks as [| |b|n|s|items|fs]; try reflexivity.
  split.
  - simpl. rewrite filter_tasks_filter. simpl.
    apply map_tasks_coerce. apply List.Forall_forall.
    intros t Ht. now apply List.filter_In in Ht.
  - intros t k _ Hk. unfold coerce_done, field. simpl.
    now rewrite lookup_set_field_other by congruence.
Qed.

Lemma loaded_tasks_witness :
  safeTasks_of
    (JArr [JNull; JObj [("id", JStr "a"); ("title", JStr "t"); ("note", JNum (Num 7))];
           JStr "x"; JObj [("id", JNum (Num 1)); ("title", JStr "u")]]) =
  Some [JObj [("id", JStr "a"); ("title", JStr "t"); ("note", JNum (Num 7));
              ("done", JBool false)]] /\
  field (own_fields (coerce_done
           (JObj [("id", JStr "a"); ("title", JStr "t"); ("note", JNum (Num 7))])))
        "note" = JNum (Num 7).
Proof.
  destruct (loaded_tasks
    (JArr [JNull; JObj [("id", JStr "a"); ("title", JStr "t"); ("note", JNum (Num 7))];
           JStr "x"; JObj [("id", JNum (Num 1)); ("title", JStr "u")]])) as [H1 H2].
  split; [exact H1|]. apply H2; [left; reflexivity | discriminate].
Defined.

(** X7. [clampNumber] on a number and a non-empty range returns the nearest
    point of the range: the number itself inside the range, the lower bound
    below it, the upper bound above it; on anything that is not a number, and
    on [NaN], it returns the fallback, in or out of the range. *)
Theorem clampNumber_nearest (v : JsVal) (lo hi fb : Q) :
  lo <= hi ->
  (forall q, v = JNum (Num q) ->
     (lo <= q -> q <= hi -> clampNumber v lo hi fb = q) /\
     (q < lo -> clampNumber v lo hi fb = lo) /\
     (hi < q -> clampNumber v lo hi fb = hi)) /\
  (is_number v = false -> clampNumber v lo hi fb = fb).
Proof.
  intros Hr. split; [|apply clampNumber_not_number].
  intros q ->. split; [|split].
  - apply clampNumber_keep.
  - intros Hq. simpl. unfold Math_max.
    destruct (Qle_bool lo q) eqn:E; [apply Qle_bool_iff in E; lra|].
    now apply Math_min_keep.
  - now apply clampNumber_above.
Qed.

Lemma clampNumber_nearest_witness :
  clampNumber (JNum (Num 3)) 5 120 25 = 5 /\
  clampNumber (JNum (Num 500)) 5 120 25 = 120 /\
  clampNumber (JNum (Num 30)) 5 120 25 = 30 /\
  clampNumber (JNum NaN) 5 120 25 = 25 /\
  clampNumber (JStr "30") 5 120 500 = 500.
Proof.
  assert (H : 5 <= 120) by discriminate.
  destruct (clampNumber_nearest (JNum (Num 3)) 5 120 25 H) as [H3 _].
  destruct (clampNumber_nearest (JNum (Num 500)) 5 120 25 H) as [H500 _].
  destruct (clampNumber_nearest (JNum (Num 30)) 5 120 25 H) as [H30 _].
  destruct (clampNumber_nearest (JNum NaN) 5 120 25 H) as [_ Hn].
  destruct (clampNumber_nearest (JStr "30") 5 120 500 H) as [_ Hs].
  split; [|split; [|split; [|split]]].
  - apply (proj1 (proj2 (H3 3 eq_refl))). reflexivity.
  - apply (proj2 (proj2 (H500 500 eq_refl))). reflexivity.
  - apply (proj1 (H30 30 eq_refl)); discriminate.
  - apply Hn. reflexivity.
  - apply Hs. reflexivity.
Defined.

End PersistMore.

(** ** More on the session timer *)

Module TimerMore.

Import Persist Timer JSFacts PersistFacts TimerFacts Lifecycle.

Lemma run_refs_synced cs : forall s, refs_synced s -> refs_synced (run cs s).
Proof.
  induction cs as [|c cs IH]; intros s H; [exact H|].
  simpl. apply IH. now apply exec_refs_synced.
Qed.

Lemma run_durations_legal cs : forall s, durations_legal s -> durations_legal (run cs s).
Proof.
  induction cs as [|c cs IH]; intros s H; [exact H|].
  simpl. apply IH. now apply exec_durations_legal.
Qed.

(** X8. In every state the application can reach, from whatever the store
    held and by any sequence of commands, the focus duration is within
    [5, 120] minutes and the break duration within [1, 45]. *)
Theorem durations_always_legal (st : Stored) (cs : list Command) :
  let s := run cs (boot st) in
  5 <= focusMinutes s /\ focusMinutes s <= 120 /\
  1 <= breakMinutes s /\ breakMinutes s <= 45.
Proof. apply run_durations_legal. apply boot_state. Qed.

(** What one command does to the count of completed sessions. *)
Lemma exec_sessions c s :
  refs_synced s ->
  completedSessions (exec c s) = completedSessions s \/
  (c = Tick /\ isRunning s = true /\ mode s = Focus /\ secondsLeft s <= 1 /\
   completedSessions (exec c s) = completedSessions s + 1) \/
  (c = ResetAllData /\ completedSessions (exec c s) = 0).
Proof.
  intros [Hm _]. destruct c; simpl; auto.
  - destruct (isRunning s) eqn:Hrun; [|auto].
    unfold intervalTick.
    destruct (Qle_bool (secondsLeft s) 1) eqn:E; simpl; [|auto].
    apply Qle_bool_iff in E. rewrite Hm.
    destruct (mode s) eqn:Hmode; [|auto].
    right. left. repeat split; auto.
  - destruct (nth_error PRESETS i); auto.
Qed.

(** X9. A command changes the count of completed sessions in two cases
    only: the tick that ends a running focus phase adds one, and the full
    wipe sets it to zero. Over any sequence of commands without a full wipe
    the count never decreases. *)
Theorem sessions_only_grow (s : AppState) :
  refs_synced s ->
  (forall c,
     completedSessions (exec c s) = completedSessions s \/
     (c = Tick /\ isRunning s = true /\ mode s = Focus /\ secondsLeft s <= 1 /\
      completedSessions (exec c s) = completedSessions s + 1) \/
     (c = ResetAllData /\ completedSessions (exec c s) = 0)) /\
  (forall cs, forallb keeps_data cs = true ->
     completedSessions s <= completedSessions (run cs s)).
Proof.
  intros Hr. split; [intros c; now apply exec_sessions|].
  intros cs. revert s Hr. induction cs as [|c cs IH]; intros s Hr Hk.
  - apply Qle_refl.
  - simpl in *. apply andb_prop in Hk as [Hc Hk].
    eapply Qle_trans; [|apply IH; [now apply exec_refs_synced | exact Hk]].
    destruct (exec_sessions c s Hr) as [E|[[_ [_ [_ [_ E]]]]|[-> _]]];
      [rewrite E; apply Qle_refl | rewrite E; lra | discriminate].
Qed.

Lemma sessions_only_grow_witness :
  let s := boot Missing in
  completedSessions s <=
    completedSessions (run [ToggleRunning; Tick; SetMode Break; Reset;
                            ApplyPreset 1; SetFocusDuration (Num 7)] s).
Proof.
  intros s. apply (proj2 (sessions_only_grow s (boot_refs_synced Missing))).
  reflexivity.
Defined.

(** X10. The duration of the phase that is not counting down can be edited
    while the timer runs, and the edit is what the next automatic phase
    change uses: when the running phase expires, the countdown of the next
    phase starts at the edited duration (clamped to its range). *)
Theorem edited_duration_applies (s : AppState) (n : nat) (v : number) :
  refs_synced s -> isRunning s = true ->
  secondsLeft s == inject_Z (Z.of_nat (S n)) ->
  match mode s with
  | Focus =>
      let s' := ticks (S n) (exec (SetBreakDuration v) s) in
      mode s' = Break /\
      secondsLeft s' = Math_min (Math_max (or_default v 1) 1) 45 * 60 /\
      isRunning s' = true
  | Break =>
      let s' := ticks (S n) (exec (SetFocusDuration v) s) in
      mode s' = Focus /\
      secondsLeft s' = Math_min (Math_max (or_default v 5) 5) 120 * 60 /\
      isRunning s' = true
  end.
Proof.
  intros Hr Hrun Hq. destruct (mode s) eqn:Hmode.
  - set (s1 := exec (SetBreakDuration v) s).
    assert (H1 : refs_synced s1) by now apply exec_refs_synced.
    assert (H2 : isRunning s1 = true) by exact Hrun.
    assert (H3 : secondsLeft s1 == inject_Z (Z.of_nat (S n))).
    { unfold s1. simpl. rewrite Hrun. simpl. exact Hq. }
    destruct (phase_runs_out s1 n H1 H2 H3) as [_ [Em [Es [_ [Ei [_ [Eb _]]]]]]].
    assert (Hm1 : mode s1 = Focus) by exact Hmode.
    rewrite Hm1 in Em. cbv zeta. split; [exact Em|]. split; [|exact Ei].
    rewrite Es. unfold cycleDuration. rewrite Em, Eb. reflexivity.
  - set (s1 := exec (SetFocusDuration v) s).
    assert (H1 : refs_synced s1) by now apply exec_refs_synced.
    assert (H2 : isRunning s1 = true) by exact Hrun.
    assert (H3 : secondsLeft s1 == inject_Z (Z.of_nat (S n))).
    { unfold s1. simpl. rewrite Hrun. simpl. exact Hq. }
    destruct (phase_runs_out s1 n H1 H2 H3) as [_ [Em [Es [_ [Ei [Ef _]]]]]].
    assert (Hm1 : mode s1 = Break) by exact Hmode.
    rewrite Hm1 in Em. cbv zeta. split; [exact Em|]. split; [|exact Ei].
    rewrite Es. unfold cycleDuration. rewrite Em, Ef. reflexivity.
Qed.

Lemma edited_duration_applies_witness :
  let s := run [ToggleRunning; Tick] (boot Missing) in
  let s' := ticks 1499 (exec (SetBreakDuration (Num 10)) s) in
  mode s' = Break /\ secondsLeft s' = 10 * 60 /\ isRunning s' = true.
Proof.
  intros s.
  exact (edited_duration_applies s 1498 (Num 10)
           (run_refs_synced _ _ (boot_refs_synced Missing)) eq_refl eq_refl).
Defined.

(** X11. A manual choice of mode, a reset, a preset and a full wipe, from
    any state with legal durations, and the tick that ends a running phase,
    all leave the countdown at exactly the duration of the mode they lead to;
    the four manual ones also stop the timer. So a countdown that an edit of
    the running phase left above its duration is back in range after any of
    them. *)
Theorem cycle_restarts (s : AppState) :
  durations_legal s ->
  (forall c, restarts_cycle c = true ->
     let s' := exec c s in
     secondsLeft s' = cycleDuration s' /\ isRunning s' = false /\
     countdown_in_range s') /\
  (refs_synced s -> isRunning s = true -> secondsLeft s <= 1 ->
     let s' := exec Tick s in
     secondsLeft s' = cycleDuration s' /\ isRunning s' = true /\
     countdown_in_range s').
Proof.
  intros Hd. unfold durations_legal in Hd. split.
  - intros c Hc. unfold countdown_in_range, cycleDuration.
    destruct c; try discriminate; simpl.
    + destruct m; simpl; repeat split; lra.
    + destruct i as [|[|[|i]]]; try discriminate; simpl; repeat split; lra.
    + repeat split; lra.
    + repeat split; lra.
  - intros Hr Hrun Hle.
    destruct (tick_expires s Hr Hrun Hle) as [Em [Es [_ [Ei [Ef [Eb _]]]]]].
    cbv zeta. split; [exact Es|]. split; [exact Ei|].
    unfold countdown_in_range. rewrite Es. split; [|apply Qle_refl].
    unfold cycleDuration. rewrite Ef, Eb.
    destruct (mode (exec Tick s)); simpl; lra.
Qed.

Lemma cycle_restarts_witness :
  let s := run [ToggleRunning; SetFocusDuration (Num 5)] (boot Missing) in
  ~ countdown_in_range s /\ countdown_in_range (exec Reset s) /\
  countdown_in_range (exec (ApplyPreset 2) s).
Proof.
  intros s. split.
  - intros [_ H]. vm_compute in H. apply H. reflexivity.
  - assert (Hd : durations_legal s)
      by (unfold durations_legal; repeat split; vm_compute; discriminate).
    destruct (cycle_restarts s Hd) as [H _].
    split; [apply (H Reset) | apply (H (ApplyPreset 2))]; reflexivity.
Defined.

Lemma exec_sessions_nonneg c s :
  0 <= completedSessions s -> 0 <= completedSessions (exec c s).
Proof.
  intros H. destruct c; simpl; try assumption.
  - destruct (isRunning s); [|assumption]. unfold intervalTick.
    destruct (negb (Qle_bool (secondsLeft s) 1)); simpl; [assumption|].
    destruct (modeRef s); lra.
  - destruct (nth_error PRESETS i); assumption.
  - lra.
Qed.

Lemma run_sessions_nonneg cs : forall s,
  0 <= completedSessions s -> 0 <= completedSessions (run cs s).
Proof.
  induction cs as [|c cs IH]; intros s H; [exact H|].
  simpl. apply IH. now apply exec_sessions_nonneg.
Qed.

(** X12. Closing and reopening the application resumes the same countdown,
    paused: for a state reached by commands that never edited the running
    phase, with at most 100000 sessions, what the save effect stored loads as
    the same durations, mode, countdown and session count, not running. *)
Theorem reload_resumes (st : Stored) (cs : list Command)
  (ts : list JsVal) (a : string) (v : Q) :
  let s := run cs (boot st) in
  edits_only_idle cs (boot st) = true ->
  completedSessions s <= 100000 ->
  Forall (fun t => task_wellformed t = true) ts ->
  In a ambientValues -> 0 <= v -> v <= 100 ->
  boot (saved (stateToStore_of s ts a v)) = paused s /\
  getInitialState (saved (stateToStore_of s ts a v)) = stateToStore_of s ts a v.
Proof.
  intros s He Hcap Hts Ha Hv0 Hv1.
  destruct (boot_state st) as [Hd Hi].
  assert (Hr : refs_synced s) by (apply run_refs_synced, boot_refs_synced).
  assert (Hd' : durations_legal s) by now apply run_durations_legal.
  assert (Hi' : countdown_in_range s)
    by (apply run_in_range; auto using boot_refs_synced).
  assert (Hc : 0 <= completedSessions s).
  { apply run_sessions_nonneg. apply (getInitialState_valid st). }
  assert (E : getInitialState (saved (stateToStore_of s ts a v))
              = stateToStore_of s ts a v).
  { apply PersistMore.saved_loads_back; [|exact Hcap].
    unfold durations_legal in Hd'.
    constructor; simpl; try tauto. exact Hi'. }
  split; [|exact E].
  unfold boot. rewrite E. destruct Hr as [Hm [Hf Hb]].
  unfold init, paused, stateToStore_of. simpl. rewrite Hm, Hf, Hb. reflexivity.
Qed.

Lemma reload_resumes_witness :
  let cs := [ToggleRunning; Tick; Tick; Tick; ToggleRunning; SetBreakDuration (Num 7);
             ToggleRunning; Tick] in
  boot (saved (stateToStore_of (run cs (boot Missing)) [] "rain" 65)) =
  paused (run cs (boot Missing)).
Proof.
  intros cs.
  apply (reload_resumes Missing cs [] "rain" 65); try reflexivity.
  - discriminate.
  - constructor.
  - right. right. left. reflexivity.
  - discriminate.
  - discriminate.
Defined.

End TimerMore.

(** ** The task list *)

Module TasksFacts.

Import Persist Tasks JSFacts PersistFacts.

(** The shape of a well-formed task. *)
Lemma wellformed_inv t :
  task_wellformed t = true ->
  exists fs i ti d, t = JObj fs /\ field fs "id" = JStr i /\
    field fs "title" = JStr ti /\ lookup_field "done" fs = Some (JBool d).
Proof.
  destruct t as [| |b|n|s|l|fs]; simpl; try discriminate.
  intros H. apply andb_prop in H as [H Hd]. apply andb_prop in H as [Hi Ht].
  destruct (field fs "id") as [| | | |i| |] eqn:Ei; try discriminate.
  destruct (field fs "title") as [| | | |ti| |] eqn:Eti; try discriminate.
  unfold field in Hd.
  destruct (lookup_field "done" fs) as [[| |d| | | |]|] eqn:Ed; try discriminate.
  exists fs, i, ti, d. auto.
Qed.

Lemma set_field_twice k v1 v2 fs :
  set_field k v2 (set_field k v1 fs) = set_field k v2 fs.
Proof.
  induction fs as [|[k' v'] fs IH]; simpl.
  - now rewrite String.eqb_refl.
  - destruct (String.eqb k k') eqn:E; simpl; rewrite E; [reflexivity|].
    now rewrite IH.
Qed.

(** What [toggleTask]'s callback does to a well-formed task. *)
Lemma toggle_one_wellformed taskId t :
  task_wellformed t = true ->
  exists t',
    toggle_one taskId t = Some t' /\
    task_wellformed t' = true /\
    task_id t' = task_id t /\
    task_done t' =
      (if has_id taskId t then negb <$> task_done t else task_done t) /\
    (has_id taskId t = false -> t' = t) /\
    toggle_one taskId t' = Some t.
Proof.
  intros Hw. destruct (wellformed_inv t Hw) as [fs [i [ti [d [-> [Hi [Hti Hd]]]]]]].
  assert (Hdf : field fs "done" = JBool d) by (unfold field; now rewrite Hd).
  unfold toggle_one, has_id, task_id, task_done.
  cbn [get mbind option_bind own_fields].
  fold (field fs "id") (field fs "done"). rewrite Hi, Hdf.
  cbn [strict_eq_string truthy].
  destruct (String.eqb i taskId) eqn:E.
  - set (fs' := set_field "done" (JBool (negb d)) fs).
    assert (Hi' : field fs' "id" = JStr i).
    { unfold field, fs'. rewrite lookup_set_field_other by discriminate. exact Hi. }
    assert (Hti' : field fs' "title" = JStr ti).
    { unfold field, fs'. rewrite lookup_set_field_other by discriminate. exact Hti. }
    assert (Hd' : field fs' "done" = JBool (negb d)).
    { unfold field, fs'. now rewrite lookup_set_field_same. }
    exists (JObj fs'). split; [reflexivity|].
    cbn [get mbind option_bind own_fields task_wellformed].
    fold (field fs' "id") (field fs' "done").
    rewrite Hi', Hti', Hd'. cbn [strict_eq_string truthy typeof_is_string andb].
    rewrite E.
    split; [reflexivity|]. split; [reflexivity|]. split; [reflexivity|].
    split; [discriminate|].
    unfold fs'. rewrite set_field_twice, negb_involutive.
    now rewrite (set_field_id _ _ _ Hd).
  - exists (JObj fs). split; [reflexivity|]. split; [exact Hw|].
    cbn [get mbind option_bind own_fields].
    fold (field fs "id") (field fs "done"). rewrite Hi, Hdf.
    cbn [strict_eq_string]. rewrite E.
    repeat split; reflexivity.
Qed.

(** X13. Toggling a task in a well-formed list never fails and keeps the
    list's length, order, ids and well-formedness; it flips [done] of every
    task that has the id and leaves every other task as it is; toggling the
    same id again gives the original list back. *)
Theorem toggleTask_flips (taskId : string) (l : list JsVal) :
  wellformed_tasks l ->
  exists l',
    toggleTask taskId l = Some l' /\
    wellformed_tasks l' /\
    Forall2 (fun t t' =>
               task_id t' = task_id t /\
               task_done t' =
                 (if has_id taskId t then negb <$> task_done t else task_done t) /\
               (has_id taskId t = false -> t' = t)) l l' /\
    toggleTask taskId l' = Some l.
Proof.
  unfold wellformed_tasks. induction 1 as [|t l Ht _ [l' [E [Hw [Hf Hback]]]]].
  - exists []. repeat split; constructor.
  - destruct (toggle_one_wellformed taskId t Ht) as [t' [E1 [Hw1 [Hid [Hd [Hsame Hb1]]]]]].
    exists (t' :: l'). simpl. rewrite E1, E. simpl. rewrite Hb1, Hback. simpl.
    repeat split; constructor; auto.
Qed.

Lemma toggleTask_flips_witness :
  let a := JObj [("id", JStr "1-7"); ("title", JStr "read"); ("done", JBool false)] in
  let b := JObj [("id", JStr "2-9"); ("title", JStr "write"); ("done", JBool true)] in
  exists l', toggleTask "2-9" [a; b] = Some l' /\ toggleTask "2-9" l' = Some [a; b].
Proof.
  intros a b.
  destruct (toggleTask_flips "2-9" [a; b]) as [l' [E [_ [_ Hb]]]].
  - repeat constructor.
  - exists l'. split; assumption.
Defined.

Lemma removeTask_filter taskId l :
  wellformed_tasks l ->
  removeTask taskId l = Some (List.filter (fun t => negb (has_id taskId t)) l).
Proof.
  unfold wellformed_tasks. induction 1 as [|t l Ht _ IH]; [reflexivity|].
  destruct (wellformed_inv t Ht) as [fs [i [ti [d [-> [Hi [Hti Hd]]]]]]].
  simpl. fold (field fs "id"). rewrite IH, Hi. simpl.
  unfold has_id, task_id. rewrite Hi.
  destruct (String.eqb i taskId); reflexivity.
Qed.

(** X14. Removing a task from a well-formed list never fails: no task with
    the id is left, the tasks with other ids are all kept, as they were and in
    their order; removing an id no task has changes nothing, and so does
    removing the same id twice. *)
Theorem removeTask_removes (taskId : string) (l : list JsVal) :
  wellformed_tasks l ->
  exists l',
    removeTask taskId l = Some l' /\
    Forall (fun t => has_id taskId t = false) l' /\
    sublist l' l /\
    (forall t, In t l -> has_id taskId t = false -> In t l') /\
    wellformed_tasks l' /\
    (Forall (fun t => has_id taskId t = false) l -> l' = l) /\
    removeTask taskId l' = Some l'.
Proof.
  intros Hw. exists (List.filter (fun t => negb (has_id taskId t)) l).
  assert (Hno : Forall (fun t => has_id taskId t = false)
                  (List.filter (fun t => negb (has_id taskId t)) l)).
  { apply List.Forall_forall. intros t Ht. apply List.filter_In in Ht as [_ Ht].
    now apply negb_true_iff in Ht. }
  assert (Hw' : wellformed_tasks (List.filter (fun t => negb (has_id taskId t)) l)).
  { unfold wellformed_tasks in *. rewrite List.Forall_forall in *.
    intros t Ht. apply List.filter_In in Ht as [Ht _]. now apply Hw. }
  assert (Hid : forall l0, Forall (fun t => has_id taskId t = false) l0 ->
                  List.filter (fun t => negb (has_id taskId t)) l0 = l0).
  { induction 1 as [|t l0 Ht _ IH]; [reflexivity|]. simpl. now rewrite Ht, IH. }
  split; [now apply removeTask_filter|]. split; [exact Hno|]. split.
  - clear. induction l as [|t l IH]; simpl; [constructor|].
    destruct (negb (has_id taskId t)); [now apply sublist_skip | now apply sublist_cons].
  - split.
    + intros t Hin Ht. apply List.filter_In. split; [exact Hin|]. now rewrite Ht.
    + split; [exact Hw'|]. split; [apply Hid|].
      rewrite removeTask_filter by exact Hw'. now rewrite Hid.
Qed.

Lemma removeTask_removes_witness :
  let a := JObj [("id", JStr "1-7"); ("title", JStr "read"); ("done", JBool false)] in
  let b := JObj [("id", JStr "2-9"); ("title", JStr "write"); ("done", JBool true)] in
  exists l', removeTask "1-7" [a; b; a] = Some l' /\
             Forall (fun t => has_id "1-7" t = false) l' /\ In b l'.
Proof.
  intros a b.
  destruct (removeTask_removes "1-7" [a; b; a]) as [l' [E [Hno [_ [Hin _]]]]].
  - repeat constructor.
  - exists l'. split; [exact E|]. split; [exact Hno|].
    apply Hin; [right; left; reflexivity | reflexivity].
Defined.

Lemma toggleTask_wellformed taskId l :
  wellformed_tasks l ->
  exists l', toggleTask taskId l = Some l' /\ wellformed_tasks l'.
Proof.
  unfold wellformed_tasks. induction 1 as [|t l Ht _ [l' [E Hw]]].
  - exists []. split; [reflexivity | constructor].
  - destruct (toggle_one_wellformed taskId t Ht) as [t' [E1 [Hw1 _]]].
    exists (t' :: l'). simpl. rewrite E1, E. split; [reflexivity|].
    constructor; assumption.
Qed.

Lemma filter_wellformed (p : JsVal -> bool) l :
  wellformed_tasks l -> wellformed_tasks (List.filter p l).
Proof.
  unfold wellformed_tasks. rewrite !List.Forall_forall.
  intros Hw t Ht. apply List.filter_In in Ht as [Ht _]. now apply Hw.
Qed.

Lemma task_step_wellformed trim e st :
  wellformed_tasks (tasks st) ->
  exists st', task_step trim e st = Some st' /\ wellformed_tasks (tasks st').
Proof.
  intros Hw. destruct e as [text|newId|taskId|taskId]; simpl.
  - eexists. split; [reflexivity | exact Hw].
  - eexists. split; [reflexivity|]. unfold handleAddTask.
    destruct (String.eqb (trim (taskInput st)) EmptyString); [exact Hw|].
    simpl. constructor; [reflexivity | exact Hw].
  - destruct (toggleTask_wellformed taskId (tasks st) Hw) as [l' [E Hw']].
    rewrite E. simpl. eexists. split; [reflexivity | exact Hw'].
  - rewrite (removeTask_filter taskId (tasks st) Hw). simpl.
    eexists. split; [reflexivity | now apply filter_wellformed].
Qed.

Lemma task_run_wellformed trim es : forall st,
  wellformed_tasks (tasks st) ->
  exists st', task_run trim es st = Some st' /\ wellformed_tasks (tasks st').
Proof.
  induction es as [|e es IH]; intros st Hw.
  - exists st. split; [reflexivity | exact Hw].
  - destruct (task_step_wellformed trim e st Hw) as [st1 [E1 Hw1]].
    destruct (IH st1 Hw1) as [st' [E Hw']].
    exists st'. simpl. rewrite E1. simpl. split; assumption.
Qed.

(** X15. Starting from the tasks loaded from any stored value, no sequence
    of typing, submitting, toggling and removing makes a handler fail,
    whatever [trim] returns and whatever ids are generated; every task stays
    an object with a string [id], a string [title] and a boolean [done], so
    the task list is loaded back exactly as it was saved. *)
Theorem task_events_safe (trim : string -> string) (stored : Stored)
  (text : string) (es : list TaskEvent) :
  exists st',
    task_run trim es
      {| taskInput := text; tasks := Persist.tasks (getInitialState stored) |}
      = Some st' /\
    wellformed_tasks (tasks st') /\
    safeTasks_of (JArr (tasks st')) = Some (tasks st').
Proof.
  destruct (task_run_wellformed trim es
              {| taskInput := text; tasks := Persist.tasks (getInitialState stored) |})
    as [st' [E Hw]].
  - apply (tasks_wellformed _ (getInitialState_valid stored)).
  - exists st'. split; [exact E|]. split; [exact Hw|].
    now apply safeTasks_wellformed.
Qed.

End TasksFacts.

(** ** More on the ambient sound graph *)

Module AudioMore.

Import Audio AudioFacts Lifecycle.

Lemma unwired_owned w : unwired (heap w) -> owned w.
Proof. intros H i n Hi Ho. exfalso. apply Ho. now apply (H i n). Qed.

(** After [stopAmbient] no node of the heap has a connection left. *)
Lemma stopAmbient_unwired w :
  tracked w -> owned w -> unwired (heap (stopAmbient w)).
Proof.
  intros Ht Ho i n Hi.
  destruct (source w) as [src|] eqn:Es.
  - rewrite (stopAmbient_lookup w src i Es) in Hi.
    destruct (heap w !! i) as [n0|] eqn:E0; [|discriminate].
    simpl in Hi. injection Hi as <-.
    destruct (existsb (Nat.eqb i) (nodes w)) eqn:Ein; [reflexivity|].
    assert (Hn0 : outputs n0 = []).
    { destruct (outputs n0) as [|t r] eqn:Eo; [reflexivity|].
      assert (Hin : In i (nodes w)) by (apply (Ho i n0 E0); rewrite Eo; discriminate).
      apply existsb_eqb_In in Hin. congruence. }
    destruct (Nat.eqb i src); exact Hn0.
  - unfold stopAmbient in Hi. rewrite Es in Hi.
    destruct Ht as [_ [_ [_ [_ Hnone]]]].
    destruct (outputs n) as [|t r] eqn:Eo; [reflexivity|].
    assert (Hin : In i (nodes w)) by (apply (Ho i n Hi); rewrite Eo; discriminate).
    rewrite (Hnone Es) in Hin. destruct Hin.
Qed.

(** A build on an unwired heap wires its own nodes only. *)
Lemma build_owned dev a v w :
  unwired (heap w) -> nodes w = [] -> owned (build_graph dev a v w).
Proof.
  intros Hu Hn. rewrite build_graph_shape. unfold owned. cbn [heap nodes].
  intros i n Hi Ho.
  apply lookup_app_cases in Hi as [Hi|[k [-> Hk]]].
  - exfalso. apply Ho. now apply (Hu i n).
  - destruct a, k as [|[|[|[|k]]]]; simpl in Hk; try discriminate;
      injection Hk as <-; simpl in *; try congruence;
      rewrite ?Nat.add_0_r; auto.
Qed.

(** Both invariants, kept together by every operation. *)
Lemma stopAmbient_kept w :
  tracked w /\ owned w -> tracked (stopAmbient w) /\ owned (stopAmbient w).
Proof.
  intros [Ht Ho]. split; [now apply stopAmbient_tracked|].
  apply unwired_owned. now apply stopAmbient_unwired.
Qed.

Lemma startAmbient_resumed_kept dev a v w :
  tracked w /\ owned w ->
  tracked (startAmbient_resumed dev a v w) /\ owned (startAmbient_resumed dev a v w).
Proof.
  intros [Ht Ho]. split; [now apply startAmbient_resumed_tracked|].
  unfold startAmbient_resumed. apply build_owned.
  - now apply stopAmbient_unwired.
  - now destruct (stopAmbient_quiet w Ht) as [[_ [_ Hn]] _].
Qed.

Lemma startAmbient_kept dev a v w :
  tracked w /\ owned w ->
  tracked (startAmbient dev a v w) /\ owned (startAmbient dev a v w).
Proof.
  intros H. unfold startAmbient.
  destruct a; [now apply stopAmbient_kept|..];
    destruct (ctx w) as [[|]|]; try destruct (startsSuspended dev);
    first [ exact H | now apply (startAmbient_resumed_kept dev _ v (set_ctx _ w)) ].
Qed.

Lemma ambientCleanup_kept a w :
  tracked w /\ owned w ->
  tracked (ambientCleanup a w) /\ owned (ambientCleanup a w).
Proof. intros H. destruct a; simpl; auto using stopAmbient_kept. Qed.

Lemma ambientEffect_kept dev w :
  tracked w /\ owned w -> tracked (ambientEffect dev w) /\ owned (ambientEffect dev w).
Proof.
  intros H. unfold ambientEffect.
  destruct (ambient w); first [ now apply stopAmbient_kept
                              | now apply startAmbient_kept ].
Qed.

Lemma react_kept dev e w :
  tracked w /\ owned w -> tracked (react dev e w) /\ owned (react dev e w).
Proof.
  intros H. destruct e; simpl.
  - unfold setAmbient. destruct (Ambient_eqb a (ambient w)); [exact H|].
    apply ambientEffect_kept.
    exact (ambientCleanup_kept (ambient w) w H).
  - unfold setVolume. destruct (Qeq_bool v (volume w)); [exact H|].
    apply ambientEffect_kept.
    exact (ambientCleanup_kept (ambient w) w H).
  - exact H.
  - destruct (pending w) as [|[a v] rest]; [exact H|].
    now apply (startAmbient_resumed_kept dev a v (set_pending rest (set_ctx _ w))).
  - destruct (pending w) as [|p rest]; exact H.
Qed.

Lemma reachable_kept dev a0 v0 es :
  let w := play dev es (mount dev a0 v0) in tracked w /\ owned w.
Proof.
  cbv zeta. unfold play.
  assert (H0 : tracked (mount dev a0 v0) /\ owned (mount dev a0 v0)).
  { unfold mount. apply ambientEffect_kept. split.
    - apply quiet_tracked. split; [|split]; try reflexivity.
      intros i n Hi. discriminate.
    - intros i n Hi. discriminate. }
  revert H0. generalize (mount dev a0 v0).
  induction es as [|e es IH]; intros w H; [exact H|].
  simpl. apply IH. now apply react_kept.
Qed.

(** X16. In every world the component can reach, every connection starts at
    a node of [audioRef.current.nodes]; so after [stopAmbient] no node at all
    has a connection left and no source plays: nothing of any earlier graph
    stays wired. *)
Theorem stopAmbient_unwires (dev : Device) (a0 : Ambient) (v0 : Q) (es : list Event) :
  let w := play dev es (mount dev a0 v0) in
  (forall i n, heap w !! i = Some n -> outputs n <> [] -> In i (nodes w)) /\
  (forall i n, heap (stopAmbient w) !! i = Some n ->
     outputs n = [] /\ is_playing n = false).
Proof.
  intros w. destruct (reachable_kept dev a0 v0 es) as [Ht Ho]. fold w in Ht, Ho.
  split; [exact Ho|]. intros i n Hi. split.
  - now apply (stopAmbient_unwired w Ht Ho i n).
  - destruct (stopAmbient_quiet w Ht) as [[Hs _] _]. now apply (Hs i n).
Qed.

Lemma stopAmbient_unwires_witness :
  let dev := {| sampleRate := 2; startsSuspended := false;
                random := fun i => Z.of_nat (i mod 4) # 4 |} in
  let w := play dev [SetAmbient Forest; SetVolume 10] (mount dev Rain 40) in
  In 9%nat (nodes w) /\
  forall n, heap (stopAmbient w) !! 9%nat = Some n -> outputs n = [].
Proof.
  intros dev w.
  destruct (stopAmbient_unwires dev Rain 40 [SetAmbient Forest; SetVolume 10])
    as [H1 H2].
  split.
  - apply (H1 9%nat {| kind := GainNode (10 / 100); outputs := [Destination] |});
      [vm_compute; reflexivity | discriminate].
  - intros n Hn. now apply (H2 9%nat n).
Defined.


(** *** A context that stays suspended *)

Lemma stopAmbient_no_source w : source w = None -> stopAmbient w = w.
Proof. intros H. unfold stopAmbient. now rewrite H. Qed.

Lemma startAmbient_untouched dev a v w :
  startsSuspended dev = true -> untouched w -> untouched (startAmbient dev a v w).
Proof.
  intros Hs H. pose proof H as [Hh [Hsrc [Hn [Hd Hc]]]]. unfold startAmbient.
  destruct a; [now rewrite stopAmbient_no_source|..];
    (destruct (ctx w) as [[|]|] eqn:Ec; [| congruence |rewrite Hs];
     unfold untouched; cbn; rewrite ?Ec; repeat split; auto; discriminate).
Qed.

Lemma ambientEffect_untouched dev w :
  startsSuspended dev = true -> untouched w -> untouched (ambientEffect dev w).
Proof.
  intros Hs H. unfold ambientEffect.
  destruct (ambient w);
    first [ rewrite stopAmbient_no_source; [exact H | apply H]
          | now apply startAmbient_untouched ].
Qed.

Lemma ambientCleanup_untouched a w : untouched w -> ambientCleanup a w = w.
Proof.
  intros H. destruct a; cbn; [reflexivity|..]; apply stopAmbient_no_source, H.
Qed.

Lemma react_untouched dev e w :
  startsSuspended dev = true ->
  match e with ResumeResolved => false | _ => true end = true ->
  untouched w -> untouched (react dev e w).
Proof.
  intros Hs He H. destruct e; cbn [react]; try discriminate.
  - unfold setAmbient. destruct (Ambient_eqb a (ambient w)); [exact H|].
    rewrite (ambientCleanup_untouched _ w H).
    apply ambientEffect_untouched; [exact Hs|exact H].
  - unfold setVolume. destruct (Qeq_bool v (volume w)); [exact H|].
    rewrite (ambientCleanup_untouched _ w H).
    apply ambientEffect_untouched; [exact Hs|exact H].
  - exact H.
  - destruct (pending w); exact H.
Qed.

(** X17. Where a new [AudioContext] starts suspended and no [ctx.resume()]
    has been resolved yet, the component has created no audio node, drawn no
    random sample and plays nothing, whatever profiles and volumes were
    chosen: every call of [startAmbient] waits at the [await]. *)
Theorem suspended_builds_nothing (dev : Device) (a0 : Ambient) (v0 : Q)
  (es : list Event) :
  startsSuspended dev = true ->
  never_resumed es = true ->
  let w := play dev es (mount dev a0 v0) in
  heap w = [] /\ source w = None /\ nodes w = [] /\ draws w = 0%nat /\
  ctx w <> Some running /\ signal_chain w = None.
Proof.
  intros Hs Hes w.
  assert (H : untouched w).
  { subst w. unfold play.
    assert (H0 : untouched (mount dev a0 v0)).
    { unfold mount. apply ambientEffect_untouched; [exact Hs|].
      unfold untouched; cbn. repeat split; discriminate. }
    revert H0 Hes. generalize (mount dev a0 v0).
    induction es as [|e es IH]; intros w0 H0 Hes; [exact H0|].
    cbn [never_resumed forallb] in Hes. apply andb_true_iff in Hes as [He Hes].
    cbn [fold_left]. apply IH; [|exact Hes].
    now apply react_untouched. }
  destruct H as [Hh [Hsrc [Hn [Hd Hc]]]].
  repeat (split; [assumption|]).
  unfold signal_chain. now rewrite Hsrc.
Qed.

Lemma suspended_builds_nothing_witness :
  let dev := {| sampleRate := 2; startsSuspended := true;
                random := fun i => Z.of_nat (i mod 4) # 4 |} in
  let w := play dev [SetVolume 10; SetAmbient Forest; ResumeRejected]
             (mount dev Rain 40) in
  heap w = [] /\ pending w = [(Rain, 10); (Forest, 10)].
Proof.
  intros dev w. split.
  - exact (proj1 (suspended_builds_nothing dev Rain 40
                    [SetVolume 10; SetAmbient Forest; ResumeRejected]
                    eq_refl eq_refl)).
  - reflexivity.
Defined.

(** X18. A call of [startAmbient] that waited at [await ctx.resume()] builds
    with the profile and volume it closed over: when sound is switched off
    while the call waits and the context is resumed afterwards, the graph of
    the old profile is built and plays although [ambient] is off. *)
Theorem stale_resume_plays (dev : Device) (a : Ambient) (v : Q) :
  startsSuspended dev = true ->
  a <> Off ->
  let w := play dev [SetAmbient Off; ResumeResolved] (mount dev a v) in
  ambient w = Off /\
  signal_chain w =
    Some (NoiseSource (noise dev 0) true :: policy_filters a ++ [GainStage (v / 100)]) /\
  (exists src n, source w = Some src /\ heap w !! src = Some n /\
                 is_playing n = true) /\
  pending w = [].
Proof.
  intros Hs Ha w.
  assert (Hw : w = build_graph dev a v
                 {| ambient := Off; volume := v; ctx := Some running;
                    source := None; nodes := []; heap := []; draws := 0;
                    pending := [] |}).
  { subst w. unfold play, mount, ambientEffect, startAmbient.
    destruct a; [congruence|..]; cbn [fold_left Audio.ambient ctx];
      rewrite Hs; reflexivity. }
  rewrite Hw. split; [|split; [|split]].
  - rewrite build_graph_shape. reflexivity.
  - now rewrite built_chain.
  - rewrite build_graph_shape. cbn [source heap].
    destruct a; [congruence|..];
      (eexists _, _; split; [reflexivity|]; split; reflexivity).
  - rewrite build_graph_shape. reflexivity.
Qed.

Lemma stale_resume_plays_witness :
  let dev := {| sampleRate := 2; startsSuspended := true;
                random := fun i => Z.of_nat (i mod 4) # 4 |} in
  let w := play dev [SetAmbient Off; ResumeResolved] (mount dev Rain 40) in
  ambient w = Off /\
  signal_chain w =
    Some [NoiseSource (noise dev 0) true; HighPass 800; LowPass 7000;
          GainStage (40 / 100)].
Proof.
  intros dev w.
  destruct (stale_resume_plays dev Rain 40 eq_refl ltac:(discriminate))
    as [H1 [H2 _]].
  split; [exact H1 | exact H2].
Defined.

(** *** Leaving the page *)

Lemma unmountCleanup_stop w :
  unmountCleanup w =
    match ctx (stopAmbient w) with
    | Some _ => set_ctx None (stopAmbient w)
    | None => stopAmbient w
    end.
Proof. unfold unmountCleanup, stopAmbient. destruct (source w); reflexivity. Qed.

Lemma stopAmbient_pending w : pending (stopAmbient w) = pending w.
Proof. unfold stopAmbient. destruct (source w); reflexivity. Qed.

(** X19. Unmounting the component, from any world it can reach, leaves no
    connection and no playing source among all the nodes ever created,
    empties [audioRef] and drops the context; it creates no node. The calls
    of [startAmbient] still waiting for [ctx.resume()] are not withdrawn. *)
Theorem unmount_releases (dev : Device) (a0 : Ambient) (v0 : Q) (es : list Event) :
  let w := play dev es (mount dev a0 v0) in
  let w' := unmount w in
  ctx w' = None /\ source w' = None /\ nodes w' = [] /\
  (forall i n, heap w' !! i = Some n -> outputs n = [] /\ is_playing n = false) /\
  List.length (heap w') = List.length (heap w) /\
  pending w' = pending w.
Proof.
  intros w w'.
  destruct (reachable_kept dev a0 v0 es) as [Ht Ho]. fold w in Ht, Ho.
  pose proof (ambientCleanup_kept (Audio.ambient w) w (conj Ht Ho)) as [Ht1 Ho1].
  set (w1 := ambientCleanup (Audio.ambient w) w) in *.
  assert (Hlen1 : List.length (heap w1) = List.length (heap w)).
  { subst w1. destruct (Audio.ambient w); cbn; auto using stopAmbient_length. }
  assert (Hp1 : pending w1 = pending w).
  { subst w1. destruct (Audio.ambient w); cbn; auto using stopAmbient_pending. }
  pose proof (stopAmbient_unwired w1 Ht1 Ho1) as Hu.
  destruct (stopAmbient_quiet w1 Ht1) as [[Hs [Hsrc Hn]] _].
  assert (Hw' : w' = match ctx (stopAmbient w1) with
                     | Some _ => set_ctx None (stopAmbient w1)
                     | None => stopAmbient w1
                     end).
  { subst w'. unfold unmount. fold w1. apply unmountCleanup_stop. }
  rewrite Hw'.
  destruct (ctx (stopAmbient w1)) eqn:Ec; cbn [set_ctx ctx source nodes heap pending];
    rewrite ?stopAmbient_length, ?stopAmbient_pending;
    (split; [reflexivity || exact Ec|]); (split; [exact Hsrc|]);
    (split; [exact Hn|]);
    (split; [|split; [exact Hlen1 | exact Hp1]]);
    intros i n Hi; (split; [now apply (Hu i n) | now apply (Hs i n)]).
Qed.

End AudioMore.
